(** * Synaxis simulators: tally frame encoder and RossTalk broadcast server

    A shallow embedding of [Tools/tsl_simulator.py] and
    [Tools/ross_simulator.py].  Python values are modelled as follows:

    - [int] is [Z] (unbounded, as in Python);
    - [bytes] is a list of [Z], every element in [0, 255];
    - [str] is the list of its Unicode code points (Python strings may hold
      lone surrogates, which is why [str.encode] can raise);
    - a raised exception is the [Raise] constructor of [result];
    - a socket object is a [nat] (object identity). *)

From Stdlib Require Import ZArith List Bool Lia String Ascii Arith.
Import ListNotations.
Open Scope Z_scope.

(** ** Python runtime: exceptions, str, bytes *)

Inductive exn : Type :=
| StructError          (* struct.error *)
| UnicodeEncodeError   (* str.encode on a lone surrogate *)
| ValueError           (* list.remove(x): x not in list *)
| OSError.             (* a socket operation failed *)

Inductive result (A : Type) : Type :=
| Ok (a : A)
| Raise (e : exn).
Arguments Ok {A} a.
Arguments Raise {A} e.

Definition bind {A B : Type} (m : result A) (k : A -> result B) : result B :=
  match m with
  | Ok a => k a
  | Raise e => Raise e
  end.

Notation "x <- m ;; k" := (bind m (fun x => k))
  (at level 61, m at next level, right associativity).

Definition bytes := list Z.
Definition str := list Z.

Definition is_byte (b : Z) : Prop := 0 <= b < 256.

(** [len(x)] as a Python int. *)
Definition len {A : Type} (l : list A) : Z := Z.of_nat (List.length l).

(** A source-code string literal (ASCII) as a Python [str]. *)
Definition lit (s : string) : str :=
  map (fun a => Z.of_N (N_of_ascii a)) (list_ascii_of_string s).

(** *** [str.encode("utf-8")] *)

Definition is_surrogate (c : Z) : bool := (0xD800 <=? c) && (c <=? 0xDFFF).

(** The UTF-8 bytes of one code point; [None] for a lone surrogate (and for
    numbers that are not code points at all). *)
Definition encode_cp (c : Z) : option bytes :=
  if c <? 0 then None
  else if c <? 0x80 then Some [c]
  else if c <? 0x800 then Some [0xC0 + c / 64; 0x80 + c mod 64]
  else if c <? 0x10000 then
    if is_surrogate c then None
    else Some [0xE0 + c / 4096; 0x80 + (c / 64) mod 64; 0x80 + c mod 64]
  else if c <? 0x110000 then
    Some [0xF0 + c / 262144; 0x80 + (c / 4096) mod 64;
          0x80 + (c / 64) mod 64; 0x80 + c mod 64]
  else None.

Fixpoint utf8_encode (s : str) : result bytes :=
  match s with
  | [] => Ok []
  | c :: s' =>
      match encode_cp c with
      | None => Raise UnicodeEncodeError
      | Some e => bs <- utf8_encode s' ;; Ok (e ++ bs)
      end
  end.

(** *** [bytes.decode("utf-8")], strict *)

Definition is_cont (b : Z) : bool := (0x80 <=? b) && (b <? 0xC0).

Fixpoint utf8_decode (bs : bytes) : option str :=
  match bs with
  | [] => Some []
  | b0 :: r0 =>
      if b0 <? 0x80 then option_map (cons b0) (utf8_decode r0)
      else if b0 <? 0xC0 then None
      else
        match r0 with
        | [] => None
        | b1 :: r1 =>
            if negb (is_cont b1) then None
            else if b0 <? 0xE0 then
              let c := (b0 - 0xC0) * 64 + (b1 - 0x80) in
              if c <? 0x80 then None
              else option_map (cons c) (utf8_decode r1)
            else
              match r1 with
              | [] => None
              | b2 :: r2 =>
                  if negb (is_cont b2) then None
                  else if b0 <? 0xF0 then
                    let c := (b0 - 0xE0) * 4096 + (b1 - 0x80) * 64
                             + (b2 - 0x80) in
                    if (c <? 0x800) || is_surrogate c then None
                    else option_map (cons c) (utf8_decode r2)
                  else
                    match r2 with
                    | [] => None
                    | b3 :: r3 =>
                        if negb (is_cont b3) then None
                        else if b0 <? 0xF8 then
                          let c := (b0 - 0xF0) * 262144 + (b1 - 0x80) * 4096
                                   + (b2 - 0x80) * 64 + (b3 - 0x80) in
                          if (c <? 0x10000) || (0x110000 <=? c) then None
                          else option_map (cons c) (utf8_decode r3)
                        else None
                    end
              end
        end
  end.

(** *** [struct.pack] with the little-endian standard formats *)

(** [struct.pack("<H", x)]: raises [struct.error] outside [0, 65535]. *)
Definition pack_H (x : Z) : result bytes :=
  if (0 <=? x) && (x <=? 65535) then Ok [x mod 256; x / 256]
  else Raise StructError.

(** [struct.pack("<B", x)]: raises [struct.error] outside [0, 255]. *)
Definition pack_B (x : Z) : result bytes :=
  if (0 <=? x) && (x <=? 255) then Ok [x] else Raise StructError.

(** [struct.unpack("<H", ...)] of two bytes. *)
Definition unpack_H (lo hi : Z) : Z := lo + 256 * hi.

(** The little-endian 16-bit field at byte offset [off] of [msg]. *)
Definition field_H (off : nat) (msg : bytes) : option Z :=
  match skipn off msg with
  | lo :: hi :: _ => Some (unpack_H lo hi)
  | _ => None
  end.

(** ** tsl_simulator.py *)

Module Tsl.

(** Lines 40-44: the control word. *)
Definition control_word (program preview : bool) : Z :=
  let control := 0 in
  let control := if program then Z.lor control 0x03 else control in
  let control := if preview then Z.lor control (Z.shiftl 0x03 2) else control in
  control.

(** [build_tsl5_message(index, program, preview, text)], statement by
    statement; every [struct.pack] may raise. *)
Definition build_tsl5_message (index : Z) (program preview : bool) (text : str)
  : result bytes :=
  text_bytes <- utf8_encode text ;;
  let text_len := len text_bytes in
  let control := control_word program preview in
  let pbc := 1 + 1 + 2 + 2 + 2 + 2 + text_len in
  msg <- pack_H pbc ;;
  b <- pack_B 0x00 ;; let msg := msg ++ b in
  b <- pack_B 0x00 ;; let msg := msg ++ b in
  b <- pack_H 0x0000 ;; let msg := msg ++ b in
  b <- pack_H index ;; let msg := msg ++ b in
  b <- pack_H control ;; let msg := msg ++ b in
  b <- pack_H text_len ;; let msg := msg ++ b in
  let msg := msg ++ text_bytes in
  Ok msg.

(** The receiving side (the application under test), written from the wire
    format in the docstring of [build_tsl5_message]: a frame is delimited by
    its leading PBC field alone.  Returns the index, the control word, the
    text and the bytes that follow the frame in the stream. *)
Definition decode_frame (stream : bytes) : option (Z * Z * str * bytes) :=
  match stream with
  | p0 :: p1 :: rest =>
      let pbc := unpack_H p0 p1 in
      let payload := firstn (Z.to_nat pbc) rest in
      let remaining := skipn (Z.to_nat pbc) rest in
      if len payload <? pbc then None
      else
        match payload with
        | _ :: _ :: _ :: _ :: i0 :: i1 :: c0 :: c1 :: t0 :: t1 :: body =>
            let text_len := unpack_H t0 t1 in
            if negb (len body =? text_len) then None
            else
              match utf8_decode body with
              | Some text => Some (unpack_H i0 i1, unpack_H c0 c1, text, remaining)
              | None => None
              end
        | _ => None
        end
  | _ => None
  end.

(** The tally flags a receiver reads back from a control word. *)
Definition program_of (control : Z) : bool := negb (Z.land control 0x03 =? 0).
Definition preview_of (control : Z) : bool :=
  negb (Z.land (Z.shiftr control 2) 0x03 =? 0).

(** Lines 62-67. *)
Definition SOURCES : list (Z * str) :=
  [ (1, lit "1:ME1PGM:CAM 1");
    (2, lit "2:ME1PGM:CAM 2");
    (3, lit "3:ME1PGM:CAM 3");
    (4, lit "4:ME1PGM:GRAPHICS") ].

(** [enumerate(l)]. *)
Fixpoint enumerate_from {A : Type} (i : Z) (l : list A) : list (Z * A) :=
  match l with
  | [] => []
  | x :: l' => (i, x) :: enumerate_from (i + 1) l'
  end.

Definition enumerate {A : Type} (l : list A) : list (Z * A) :=
  enumerate_from 0 l.

(** What one iteration of the [for] loop (lines 95-99) hands to
    [sock.sendall], together with the two flags it computed. *)
Record tally : Type := mkTally
  { source_index : Z;
    is_program : bool;
    is_preview : bool;
    frame : bytes }.

Fixpoint send_sources (current_program : Z) (items : list (Z * (Z * str)))
  : result (list tally) :=
  match items with
  | [] => Ok []
  | (i, (index, label)) :: items' =>
      let is_program := i =? current_program in
      let is_preview := i =? (current_program + 1) mod len SOURCES in
      msg <- build_tsl5_message index is_program is_preview label ;;
      sent <- send_sources current_program items' ;;
      Ok (mkTally index is_program is_preview msg :: sent)
  end.

(** One pass of the [while True] body (lines 94-114), every [sendall]
    returning: the frames written, in order, and the next cursor. *)
Definition tick (current_program : Z) : result (list tally * Z) :=
  sent <- send_sources current_program (enumerate SOURCES) ;;
  Ok (sent, (current_program + 1) mod len SOURCES).

(** The cursor after [n] passes of the loop. *)
Fixpoint cursor_after (n : nat) (current_program : Z) : result Z :=
  match n with
  | O => Ok current_program
  | S n' =>
      r <- tick current_program ;;
      cursor_after n' (snd r)
  end.

(** Line 90. *)
Definition initial_cursor : Z := 0.

(** A code point [str.encode] accepts: in the Unicode range and not a
    surrogate. *)
Definition encodable (c : Z) : Prop :=
  0 <= c < 0x110000 /\ is_surrogate c = false.

(** A receiver reading a stream frame after frame, [n] frames at most. *)
Fixpoint decode_stream (n : nat) (stream : bytes) : option (list (Z * Z * str)) :=
  match stream with
  | [] => Some []
  | _ :: _ =>
      match n with
      | O => None
      | S n' =>
          match decode_frame stream with
          | Some (index, control, text, rest) =>
              option_map (cons (index, control, text)) (decode_stream n' rest)
          | None => None
          end
      end
  end.


(** Everything [sock.sendall] wrote during one pass, as one stream. *)
Definition tick_stream (sent : list tally) : bytes :=
  List.concat (map frame sent).

End Tsl.

(** ** ross_simulator.py

    [send_command] and the test sequences run on the main thread; they are
    modelled as they execute there, one call at a time, on a state that
    holds the simulator object and what has been printed and written so
    far.  The accept and receive threads enter as single operations
    ([accept_connection], [receive_exit]) that can be placed between the
    steps of the main thread. *)

Module Ross.

Definition sock := nat.

(** What the process does to the outside world, in order. *)
Inductive output : Type :=
| Send (client : sock) (data : bytes)  (* client.send(data) returned *)
| PrintWarn                            (* [WARN] No clients connected! *)
| PrintSent (command : str)            (* [SENT] command *)
| PrintError (client : sock)           (* [ERROR] Failed to send to client *)
| PrintShuttingDown
| PrintStopped.                        (* [TEST] Stopped by user *)

(** The simulator object, the sockets closed so far and the output so
    far. *)
Record State : Type := mkState
  { server_socket : option sock;
    clients : list sock;
    running : bool;
    closed : list sock;
    out : list output }.

Definition emit (o : output) (st : State) : State :=
  mkState (server_socket st) (clients st) (running st) (closed st)
          (out st ++ [o]).

Definition set_clients (l : list sock) (st : State) : State :=
  mkState (server_socket st) l (running st) (closed st) (out st).

(** [st] with the client list [l] and [o] added to its output. *)
Definition extend (l : list sock) (o : list output) (st : State) : State :=
  mkState (server_socket st) l (running st) (closed st) (out st ++ o).

Definition set_running (b : bool) (st : State) : State :=
  mkState (server_socket st) (clients st) b (closed st) (out st).

Definition close (s : sock) (st : State) : State :=
  mkState (server_socket st) (clients st) (running st) (s :: closed st)
          (out st).

(** [__init__]. *)
Definition init : State := mkState None [] false [] [].

(** [l.remove(x)]: drops the first occurrence, [ValueError] when absent. *)
Fixpoint list_remove (x : sock) (l : list sock) : result (list sock) :=
  match l with
  | [] => Raise ValueError
  | y :: l' =>
      if Nat.eqb y x then Ok l'
      else r <- list_remove x l' ;; Ok (y :: r)
  end.

Definition CRLF : str := [13; 10].

Section Broadcast.

(** The peers on which [send] raises (reset, broken pipe).  A [send]
    that returns is taken to have written the whole message. *)
Variable broken : sock -> bool.

(** The characters outside ASCII that the encoding of [sys.stdout] can
    encode ([fun _ => true] for a UTF-8 terminal, [fun _ => false] for an
    ASCII one).  [print] raises [UnicodeEncodeError] on a text holding any
    other character outside ASCII; stdout itself stays open. *)
Variable stdout_encodes : Z -> bool.

Definition send_raises (st : State) (client : sock) : bool :=
  broken client || existsb (Nat.eqb client) (closed st).

Definition print_raises (text : str) : bool :=
  existsb (fun c => (0x80 <=? c) && negb (stdout_encodes c)) text.

(** The body of the [try] (lines 89-90): the state it reaches and the
    exception it raises, if any.  The [print] of line 90 comes after the
    [send] and is inside the [try] as well. *)
Definition try_send (command message : str) (client : sock) (st : State)
  : State * option exn :=
  match utf8_encode message with
  | Raise e => (st, Some e)
  | Ok data =>
      if send_raises st client then (st, Some OSError)
      else
        let st1 := emit (Send client data) st in
        if print_raises command then (st1, Some UnicodeEncodeError)
        else (emit (PrintSent command) st1, None)
  end.

(** One iteration of the [for] loop (lines 88-93): the [try] and its
    handler.  The line the handler prints is ASCII, the exception text
    being escaped. *)
Definition loop_body (command message : str) (client : sock) (st : State)
  : result State :=
  match try_send command message client st with
  | (st1, None) => Ok st1
  | (st1, Some _) =>
      let st2 := emit (PrintError client) st1 in
      l <- list_remove client (clients st2) ;;
      Ok (set_clients l st2)
  end.

(** The [for] loop over the copy of the list (line 87). *)
Fixpoint for_clients (snapshot : list sock) (command message : str)
  (st : State) : result State :=
  match snapshot with
  | [] => Ok st
  | client :: snapshot' =>
      st' <- loop_body command message client st ;;
      for_clients snapshot' command message st'
  end.

(** [send_command(command)]; [Raise] is an exception that reaches the
    caller. *)
Definition send_command (command : str) (st : State) : result State :=
  match clients st with
  | [] => Ok (emit PrintWarn st)
  | _ :: _ =>
      let message := command ++ CRLF in
      for_clients (clients st) command message st
  end.

(** Whether the [try] body raises for [client] (in the encode, the send
    or the print), and what one iteration of the loop adds to the
    output. *)
Definition try_fails (command : str) (st : State) (client : sock) : bool :=
  match snd (try_send command (command ++ CRLF) client st) with
  | None => false
  | Some _ => true
  end.

Definition iteration_output (command : str) (st : State) (client : sock)
  : list output :=
  let r := try_send command (command ++ CRLF) client st in
  skipn (List.length (out st)) (out (fst r))
  ++ match snd r with
     | None => []
     | Some _ => [PrintError client]
     end.

(** What a peer receives from one broadcast whose write to it returns. *)
Definition sent_data (command : str) : list bytes :=
  match utf8_encode (command ++ CRLF) with
  | Ok data => [data]
  | Raise _ => []
  end.

Definition KEYCUT_ON : str := lit "KEYCUT ME:1:1".
Definition KEYCUT_OFF : str := lit "KEYCUT ME:1:1:OFF".

(** Where in an iteration of the toggle loop the [KeyboardInterrupt] is
    raised. *)
Inductive cancel_point : Type :=
| BeforeSend     (* at the loop head, before [send_command] is called *)
| AfterSend      (* [send_command] returned, [keyer_on] not yet assigned *)
| DuringSleep.   (* in [time.sleep(3)] *)

(** The [except KeyboardInterrupt] block (lines 252-256). *)
Definition on_interrupt (keyer_on : bool) (st : State) : result State :=
  st' <- (if keyer_on then send_command KEYCUT_OFF st else Ok st) ;;
  Ok (emit PrintStopped st').

(** [_run_keyer_toggle_test] from the loop head with the flag [keyer_on],
    interrupted at [p] in the iteration that follows [n] whole ones. *)
Fixpoint toggle_loop (n : nat) (p : cancel_point) (keyer_on : bool)
  (st : State) : result State :=
  let command := if keyer_on then KEYCUT_OFF else KEYCUT_ON in
  match n with
  | O =>
      match p with
      | BeforeSend => on_interrupt keyer_on st
      | AfterSend =>
          st' <- send_command command st ;;
          on_interrupt keyer_on st'
      | DuringSleep =>
          st' <- send_command command st ;;
          on_interrupt (negb keyer_on) st'
      end
  | S n' =>
      st' <- send_command command st ;;
      toggle_loop n' p (negb keyer_on) st'
  end.

(** Line 242 and the [try]. *)
Definition _run_keyer_toggle_test (n : nat) (p : cancel_point) (st : State)
  : result State :=
  toggle_loop n p false st.

End Broadcast.

(** Menu choice [q] (lines 180-183). *)
Definition menu_quit (st : State) : State :=
  set_running false (emit PrintShuttingDown st).

(** The [finally] of [main] (lines 270-272). *)
Definition main_finally (st : State) : State :=
  match server_socket st with
  | Some s => close s st
  | None => st
  end.

(** Stopping the server: the quit choice, then [main] unwinding. *)
Definition stop (st : State) : State := main_finally (menu_quit st).

(** The bytes written to sockets, in order. *)
Fixpoint writes (o : list output) : list (sock * bytes) :=
  match o with
  | [] => []
  | Send c d :: o' => (c, d) :: writes o'
  | _ :: o' => writes o'
  end.

(** The bytes written to peer [c], in order. *)
Definition received (c : sock) (o : list output) : list bytes :=
  map snd (filter (fun w => Nat.eqb (fst w) c) (writes o)).

(** [start] up to the accept thread (lines 28-32): the listening socket
    [s] is created and bound, the flag is set. *)
Definition start_listen (s : sock) (st : State) : State :=
  mkState (Some s) (clients st) true (closed st) (out st).

(** One successful [accept] in [_accept_connections] (lines 53-56): the
    new socket is appended; the second component is the total printed. *)
Definition accept_connection (client_socket : sock) (st : State) : State * Z :=
  let st' := set_clients (clients st ++ [client_socket]) st in
  (st', len (clients st')).

(** The end of [_receive_data] (lines 75-76), reached when the peer closes
    or [recv] raises: the guarded removal, then the total printed. *)
Definition receive_exit (client_socket : sock) (st : State)
  : result (State * Z) :=
  st' <- (if existsb (Nat.eqb client_socket) (clients st)
          then l <- list_remove client_socket (clients st) ;;
               Ok (set_clients l st)
          else Ok st) ;;
  Ok (st', len (clients st')).

(** The commands of [_run_production_sequence] in the order of its
    [send_command] calls (lines 193-229). *)
Definition PRODUCTION : list str :=
  [ lit "SELECT PGM:1:IN:1";
    lit "MECUT ME:1"; lit "SELECT PGM:1:IN:2";
    lit "KEYCUT ME:1:1";
    lit "MECUT ME:1"; lit "SELECT PGM:1:IN:3";
    lit "KEYCUT ME:1:1:OFF";
    lit "MEAUTO ME:1"; lit "SELECT PGM:1:IN:1";
    lit "KEYCUT ME:1:2";
    lit "KEYCUT ME:1:2:OFF";
    lit "MECUT ME:1"; lit "SELECT PGM:1:IN:2" ].

(** How a test sequence ends: its last statement, or the
    [except KeyboardInterrupt] block. *)
Inductive ending : Type :=
| Complete
| StoppedByUser.

(** Consecutive [send_command] calls, numbered from [i] on; [broken j]
    tells which sockets refuse the write during call [j]. *)
Fixpoint send_commands (broken : nat -> sock -> bool)
  (stdout_encodes : Z -> bool) (i : nat) (commands : list str) (st : State)
  : result State :=
  match commands with
  | [] => Ok st
  | command :: commands' =>
      st' <- send_command (broken i) stdout_encodes command st ;;
      send_commands broken stdout_encodes (S i) commands' st'
  end.

(** [_run_production_sequence]: run to the end ([None]), or interrupted
    when [k] of its commands have been broadcast ([Some k]); the handler
    only prints. *)
Definition _run_production_sequence (broken : nat -> sock -> bool)
  (stdout_encodes : Z -> bool) (interrupt : option nat) (st : State)
  : result (State * ending) :=
  match interrupt with
  | None =>
      st' <- send_commands broken stdout_encodes 0 PRODUCTION st ;;
      Ok (st', Complete)
  | Some k =>
      st' <- send_commands broken stdout_encodes 0 (firstn k PRODUCTION) st ;;
      Ok (st', StoppedByUser)
  end.

(** What a pass of [_interactive_menu] does once the operator has
    answered (lines 122-183). *)
Inductive action : Type :=
| DoSend (command : str)   (* self.send_command(command) *)
| DoProduction             (* self._run_production_sequence() *)
| DoToggle                 (* self._run_keyer_toggle_test() *)
| DoStatus                 (* prints the number of clients *)
| DoQuit                   (* clears self.running and leaves the loop *)
| DoNothing.               (* next pass *)

Definition str_eqb (a b : str) : bool :=
  if list_eq_dec Z.eq_dec a b then true else false.

Section Menu.

(** [str.isspace] on one character, that is the characters [str.strip()]
    removes, and [str.lower]: tables of the Python runtime. *)
Variable isspace : Z -> bool.
Variable lower : str -> str.

Fixpoint lstrip (s : str) : str :=
  match s with
  | [] => []
  | c :: s' => if isspace c then lstrip s' else s
  end.

Definition rstrip (s : str) : str := rev (lstrip (rev s)).

(** [s.strip()]. *)
Definition strip (s : str) : str := rstrip (lstrip s).

(** [input(prompt).strip() or default]. *)
Definition ask (answer default : str) : str :=
  match strip answer with
  | [] => default
  | _ :: _ => strip answer
  end.

(** One pass of the menu: [raw] is what the operator typed at the menu
    prompt, [answers i] what was typed at the [i]-th prompt of the chosen
    entry. *)
Definition menu_action (raw : str) (answers : nat -> str) : action :=
  let choice := lower (strip raw) in
  if str_eqb choice (lit "1") then
    let me := ask (answers 0%nat) (lit "1") in
    DoSend (lit "MECUT ME:" ++ me)
  else if str_eqb choice (lit "2") then
    let me := ask (answers 0%nat) (lit "1") in
    DoSend (lit "MEAUTO ME:" ++ me)
  else if str_eqb choice (lit "3") then
    let source := ask (answers 0%nat) (lit "1") in
    DoSend (lit "SELECT PGM:1:IN:" ++ source)
  else if str_eqb choice (lit "4") then
    let me := ask (answers 0%nat) (lit "1") in
    let keyer := ask (answers 1%nat) (lit "1") in
    DoSend (lit "KEYCUT ME:" ++ me ++ lit ":" ++ keyer)
  else if str_eqb choice (lit "5") then
    let me := ask (answers 0%nat) (lit "1") in
    let keyer := ask (answers 1%nat) (lit "1") in
    DoSend (lit "KEYCUT ME:" ++ me ++ lit ":" ++ keyer ++ lit ":OFF")
  else if str_eqb choice (lit "6") then
    let me := ask (answers 0%nat) (lit "1") in
    let keyer := ask (answers 1%nat) (lit "1") in
    DoSend (lit "KEYAUTO ME:" ++ me ++ lit ":" ++ keyer)
  else if str_eqb choice (lit "7") then
    let me := ask (answers 0%nat) (lit "1") in
    let keyer := ask (answers 1%nat) (lit "1") in
    DoSend (lit "KEYAUTO ME:" ++ me ++ lit ":" ++ keyer ++ lit ":OFF")
  else if str_eqb choice (lit "8") then
    let level := ask (answers 0%nat) (lit "vid") in
    let dest := ask (answers 1%nat) (lit "1") in
    let source := ask (answers 2%nat) (lit "1") in
    DoSend (lit "XPT " ++ level ++ lit " " ++ dest ++ lit " " ++ source)
  else if str_eqb choice (lit "9") then
    let salvo := ask (answers 0%nat) (lit "1") in
    DoSend (lit "SALVO " ++ salvo)
  else if str_eqb choice (lit "10") then DoProduction
  else if str_eqb choice (lit "11") then DoToggle
  else if str_eqb choice (lit "c") then
    let cmd := strip (answers 0%nat) in
    match cmd with
    | [] => DoNothing
    | _ :: _ => DoSend cmd
    end
  else if str_eqb choice (lit "s") then DoStatus
  else if str_eqb choice (lit "q") then DoQuit
  else DoNothing.

End Menu.

(** What the threads of the simulator do to its state, one operation at a
    time; an accepted socket is a new object, not yet in the list. *)
Inductive step : State -> State -> Prop :=
| step_start (s : sock) (st : State) :
    step st (start_listen s st)
| step_accept (c : sock) (st : State) :
    ~ In c (clients st) ->
    step st (fst (accept_connection c st))
| step_receive_exit (c : sock) (st st' : State) (n : Z) :
    receive_exit c st = Ok (st', n) ->
    step st st'
| step_send (broken : sock -> bool) (stdout_encodes : Z -> bool)
    (command : str) (st st' : State) :
    send_command broken stdout_encodes command st = Ok st' ->
    step st st'
| step_stop (st : State) :
    step st (stop st).

Inductive reachable : State -> Prop :=
| reachable_init : reachable init
| reachable_step (st st' : State) :
    reachable st -> step st st' -> reachable st'.

(** The two lines of the toggle test as they go on the wire. *)
Definition on_line : bytes :=
  [75; 69; 89; 67; 85; 84; 32; 77; 69; 58; 49; 58; 49; 13; 10].
Definition off_line : bytes :=
  [75; 69; 89; 67; 85; 84; 32; 77; 69; 58; 49; 58; 49; 58; 79; 70; 70;
   13; 10].

(** A state with [peer] as the only client, its socket open. *)
Definition single (peer : sock) (st : State) : Prop :=
  clients st = [peer] /\ existsb (Nat.eqb peer) (closed st) = false.

(** The bytes of the last write, if any. *)
Definition last_written (o : list output) : option bytes :=
  match rev (writes o) with
  | [] => None
  | (_, data) :: _ => Some data
  end.

End Ross.

(** * Properties *)

(** ** UTF-8 *)

Ltac cmp_cases :=
  repeat match goal with
    | |- context [?a <? ?b] => destruct (Z.ltb_spec a b)
    | |- context [?a <=? ?b] => destruct (Z.leb_spec a b)
    | H : context [?a <? ?b] |- _ => destruct (Z.ltb_spec a b)
    | H : context [?a <=? ?b] |- _ => destruct (Z.leb_spec a b)
    end.

Ltac euclid := Z.div_mod_to_equations; lia.

Lemma encode_cp_cases (c : Z) (e : bytes) :
  encode_cp c = Some e ->
  (0 <= c < 0x80 /\ e = [c]) \/
  (0x80 <= c < 0x800 /\ e = [0xC0 + c / 64; 0x80 + c mod 64]) \/
  (0x800 <= c < 0x10000 /\ (c < 0xD800 \/ 0xDFFF < c) /\
   e = [0xE0 + c / 4096; 0x80 + (c / 64) mod 64; 0x80 + c mod 64]) \/
  (0x10000 <= c < 0x110000 /\
   e = [0xF0 + c / 262144; 0x80 + (c / 4096) mod 64;
        0x80 + (c / 64) mod 64; 0x80 + c mod 64]).
Proof.
  unfold encode_cp, is_surrogate. intros H.
  cmp_cases; cbn [andb] in H; try discriminate;
    injection H as <-; intuition lia.
Qed.

Lemma encode_cp_bytes (c : Z) (e : bytes) :
  encode_cp c = Some e -> Forall is_byte e.
Proof.
  intros H. unfold is_byte.
  destruct (encode_cp_cases _ _ H) as [[? ->]|[[? ->]|[(? & ? & ->)|[? ->]]]];
    repeat constructor; euclid.
Qed.

Lemma encode_cp_length (c : Z) (e : bytes) :
  encode_cp c = Some e ->
  1 <= len e <= 4 /\ (0x80 <= c -> 2 <= len e).
Proof.
  intros H. unfold len.
  destruct (encode_cp_cases _ _ H) as [[? ->]|[[? ->]|[(? & ? & ->)|[? ->]]]];
    cbn [List.length]; lia.
Qed.

(** A byte below 0x80 occurs in the encoding of [c] only as [c] itself. *)
Ltac cmp_prune :=
  repeat (match goal with
          | |- context [?a <? ?b] => destruct (Z.ltb_spec a b)
          | |- context [?a <=? ?b] => destruct (Z.leb_spec a b)
          end; try lia).

(** A byte below 0x80 occurs in the encoding of [c] only as [c] itself. *)
Lemma encode_cp_ascii (c : Z) (e : bytes) (b : Z) :
  encode_cp c = Some e -> b < 0x80 -> In b e -> b = c.
Proof.
  intros H Hb Hin.
  destruct (encode_cp_cases _ _ H) as [[? ->]|[[? ->]|[(? & ? & ->)|[? ->]]]];
    cbn [In] in Hin; Z.div_mod_to_equations; intuition lia.
Qed.

Lemma utf8_decode_encode_cp (c : Z) (e bs : bytes) :
  encode_cp c = Some e ->
  utf8_decode (e ++ bs) = option_map (cons c) (utf8_decode bs).
Proof.
  intros H.
  destruct (encode_cp_cases _ _ H) as [[? ->]|[[? ->]|[(? & ? & ->)|[? ->]]]];
    cbn [app utf8_decode]; unfold is_cont, is_surrogate;
    Z.div_mod_to_equations; cmp_prune; cbn [negb andb orb];
    try reflexivity; do 2 f_equal; lia.
Qed.

Lemma utf8_encode_cons (c : Z) (s : str) (bs : bytes) :
  utf8_encode (c :: s) = Ok bs ->
  exists e bs', encode_cp c = Some e /\ utf8_encode s = Ok bs' /\ bs = e ++ bs'.
Proof.
  cbn [utf8_encode]. destruct (encode_cp c) as [e|]; [|discriminate].
  destruct (utf8_encode s) as [bs'|]; cbn [bind]; [|discriminate].
  intros [= <-]. eauto.
Qed.

Lemma utf8_encode_app (s1 s2 : str) :
  utf8_encode (s1 ++ s2) =
  (b1 <- utf8_encode s1 ;; b2 <- utf8_encode s2 ;; Ok (b1 ++ b2)).
Proof.
  induction s1 as [|c s1 IH]; cbn [app utf8_encode bind].
  - destruct (utf8_encode s2); reflexivity.
  - destruct (encode_cp c); [|reflexivity].
    rewrite IH. destruct (utf8_encode s1); cbn [bind]; [|reflexivity].
    destruct (utf8_encode s2); cbn [bind]; [|reflexivity].
    now rewrite app_assoc.
Qed.

Lemma utf8_roundtrip (s : str) (bs : bytes) :
  utf8_encode s = Ok bs -> utf8_decode bs = Some s.
Proof.
  revert bs. induction s as [|c s IH]; intros bs H.
  - injection H as <-. reflexivity.
  - destruct (utf8_encode_cons _ _ _ H) as (e & bs' & He & Hs & ->).
    rewrite (utf8_decode_encode_cp _ _ _ He), (IH _ Hs). reflexivity.
Qed.

Lemma utf8_encode_bytes (s : str) (bs : bytes) :
  utf8_encode s = Ok bs -> Forall is_byte bs.
Proof.
  revert bs. induction s as [|c s IH]; intros bs H.
  - injection H as <-. constructor.
  - destruct (utf8_encode_cons _ _ _ H) as (e & bs' & He & Hs & ->).
    apply Forall_app. split; [eapply encode_cp_bytes|]; eauto.
Qed.

Lemma len_app {A : Type} (l1 l2 : list A) : len (l1 ++ l2) = len l1 + len l2.
Proof. unfold len. rewrite length_app. lia. Qed.

Lemma len_nonneg {A : Type} (l : list A) : 0 <= len l.
Proof. unfold len. lia. Qed.

(** The encoded form is never shorter than the string, and strictly longer
    as soon as one character is not ASCII. *)
Lemma utf8_encode_len (s : str) (bs : bytes) :
  utf8_encode s = Ok bs ->
  len s <= len bs /\ (Exists (fun c => 0x80 <= c) s -> len s < len bs).
Proof.
  revert bs. induction s as [|c s IH]; intros bs H.
  - injection H as <-. split; [reflexivity|]. intros E. inversion E.
  - destruct (utf8_encode_cons _ _ _ H) as (e & bs' & He & Hs & ->).
    destruct (IH _ Hs) as [IH1 IH2].
    destruct (encode_cp_length _ _ He) as [L1 L2].
    rewrite len_app. change (c :: s) with ([c] ++ s). rewrite len_app.
    change (len [c]) with 1. split; [lia|].
    intros E. inversion E; subst; [specialize (L2 ltac:(assumption))
                                  |specialize (IH2 ltac:(assumption))]; lia.
Qed.

Lemma utf8_encode_ascii (s : str) (bs : bytes) (b : Z) :
  utf8_encode s = Ok bs -> b < 0x80 -> In b bs -> In b s.
Proof.
  revert bs. induction s as [|c s IH]; intros bs H Hb Hin.
  - injection H as <-. assumption.
  - destruct (utf8_encode_cons _ _ _ H) as (e & bs' & He & Hs & ->).
    apply in_app_or in Hin. destruct Hin as [Hin|Hin].
    + left. symmetry. eapply encode_cp_ascii; eauto.
    + right. eauto.
Qed.

(** ** struct *)

Lemma pack_H_ok (x : Z) :
  0 <= x <= 65535 -> pack_H x = Ok [x mod 256; x / 256].
Proof.
  intros H. unfold pack_H.
  destruct (Z.leb_spec 0 x), (Z.leb_spec x 65535); try lia. reflexivity.
Qed.

Lemma pack_H_raises (x : Z) :
  x < 0 \/ 65535 < x -> pack_H x = Raise StructError.
Proof.
  intros H. unfold pack_H.
  destruct (Z.leb_spec 0 x), (Z.leb_spec x 65535); try lia; reflexivity.
Qed.

Lemma pack_H_inv (x : Z) (b : bytes) :
  pack_H x = Ok b -> 0 <= x <= 65535 /\ b = [x mod 256; x / 256].
Proof.
  unfold pack_H.
  destruct (Z.leb_spec 0 x), (Z.leb_spec x 65535); cbn [andb];
    try discriminate.
  intros [= <-]. split; [lia|reflexivity].
Qed.

Lemma unpack_H_pack (x : Z) : unpack_H (x mod 256) (x / 256) = x.
Proof. unfold unpack_H. euclid. Qed.

Lemma firstn_len_app {A : Type} (l r : list A) :
  firstn (List.length l) (l ++ r) = l.
Proof. induction l; cbn; congruence. Qed.

Lemma skipn_len_app {A : Type} (l r : list A) :
  skipn (List.length l) (l ++ r) = r.
Proof. induction l; cbn; congruence. Qed.

(** ** The tally frame encoder *)

Import Tsl.

Lemma control_word_values (program preview : bool) :
  control_word program preview =
  match program, preview with
  | true, false => 0x0003
  | false, true => 0x000C
  | true, true => 0x000F
  | false, false => 0x0000
  end.
Proof. destruct program, preview; reflexivity. Qed.

Lemma control_word_range (program preview : bool) :
  0 <= control_word program preview <= 65535.
Proof. destruct program, preview; vm_compute; split; discriminate. Qed.

Lemma control_word_flags (program preview : bool) :
  program_of (control_word program preview) = program /\
  preview_of (control_word program preview) = preview.
Proof. destruct program, preview; split; reflexivity. Qed.

(** The byte layout of every frame the encoder returns. *)
Lemma build_layout (index : Z) (program preview : bool) (text : str)
  (bs : bytes) :
  0 <= index <= 65535 ->
  utf8_encode text = Ok bs ->
  len bs <= 65525 ->
  build_tsl5_message index program preview text =
  Ok ([ (10 + len bs) mod 256; (10 + len bs) / 256; 0; 0; 0; 0;
        index mod 256; index / 256;
        control_word program preview mod 256;
        control_word program preview / 256;
        len bs mod 256; len bs / 256 ] ++ bs).
Proof.
  intros Hi He Hl. pose proof (len_nonneg bs) as Hn.
  pose proof (control_word_range program preview) as Hc.
  unfold build_tsl5_message. rewrite He. cbn [bind].
  replace (1 + 1 + 2 + 2 + 2 + 2 + len bs) with (10 + len bs) by lia.
  rewrite (pack_H_ok (10 + len bs)) by lia. cbn [bind].
  change (pack_B 0) with (Ok [0]). change (pack_H 0) with (Ok [0; 0]).
  cbn [bind]. rewrite (pack_H_ok index) by lia. cbn [bind].
  rewrite (pack_H_ok (control_word program preview)) by lia. cbn [bind].
  rewrite (pack_H_ok (len bs)) by lia. cbn [bind app]. reflexivity.
Qed.

(** The encoder returns a frame only inside these bounds. *)
Lemma build_ok_inv (index : Z) (program preview : bool) (text : str)
  (msg : bytes) :
  build_tsl5_message index program preview text = Ok msg ->
  0 <= index <= 65535 /\
  exists bs, utf8_encode text = Ok bs /\ len bs <= 65525.
Proof.
  unfold build_tsl5_message.
  destruct (utf8_encode text) as [bs|]; cbn [bind]; [|discriminate].
  destruct (pack_H (1 + 1 + 2 + 2 + 2 + 2 + len bs)) eqn:Hp; cbn [bind];
    [|discriminate].
  apply pack_H_inv in Hp. destruct Hp as [Hp _].
  change (pack_B 0) with (Ok [0]). change (pack_H 0) with (Ok [0; 0]).
  cbn [bind].
  destruct (pack_H index) eqn:Hx; cbn [bind]; [|discriminate].
  apply pack_H_inv in Hx. destruct Hx as [Hx _].
  intros _. split; [assumption|]. exists bs. split; [reflexivity|lia].
Qed.

(** Decoding a frame with this layout, followed by anything. *)
Lemma decode_frame_layout (v f s0 s1 index control : Z) (body rest : bytes) :
  decode_frame
    ([ (10 + len body) mod 256; (10 + len body) / 256; v; f; s0; s1;
       index mod 256; index / 256; control mod 256; control / 256;
       len body mod 256; len body / 256 ] ++ body ++ rest) =
  match utf8_decode body with
  | Some text => Some (index, control, text, rest)
  | None => None
  end.
Proof.
  cbn [app decode_frame]. rewrite !unpack_H_pack.
  replace (Z.to_nat (10 + len body)) with (10 + List.length body)%nat
    by (unfold len; lia).
  cbn [Nat.add firstn skipn]. rewrite firstn_len_app, skipn_len_app.
  match goal with |- context [?a <? ?b] => destruct (Z.ltb_spec a b) as [L|L] end.
  - exfalso. unfold len in L. cbn [List.length] in L. lia.
  - cbn beta iota. rewrite ?unpack_H_pack, Z.eqb_refl. reflexivity.
Qed.

(** C1, as the code has it: the payload length written at offset 0 is 10
    plus the byte length of the encoded label (everything from offset 2
    onward: version, flags, screen, index, control, text length, text),
    whenever the index fits 16 bits and the encoded label is at most 65525
    bytes long. *)
Theorem payload_length_field (index : Z) (program preview : bool) (text : str)
  (bs : bytes) :
  0 <= index <= 65535 ->
  utf8_encode text = Ok bs ->
  len bs <= 65525 ->
  exists msg,
    build_tsl5_message index program preview text = Ok msg /\
    field_H 0 msg = Some (10 + len bs).
Proof.
  intros Hi He Hl. eexists. split; [apply build_layout; eassumption|].
  unfold field_H. cbn [skipn app]. now rewrite unpack_H_pack.
Qed.

Lemma payload_length_field_witness :
  exists msg,
    build_tsl5_message 1 true false (lit "CAM 1") = Ok msg /\
    field_H 0 msg = Some (10 + len [67; 65; 77; 32; 49]).
Proof.
  apply (payload_length_field 1 true false (lit "CAM 1") [67; 65; 77; 32; 49]).
  - lia.
  - reflexivity.
  - vm_compute. discriminate.
Defined.

(** C1 as stated fails: for index 1, program on, preview off and the label
    "CAM 1" the field at offset 0 holds 15, not 8 + 5 = 13. *)
Lemma payload_length_cam1_is_15 :
  build_tsl5_message 1 true false (lit "CAM 1") =
    Ok [15; 0; 0; 0; 0; 0; 1; 0; 3; 0; 5; 0; 67; 65; 77; 32; 49] /\
  utf8_encode (lit "CAM 1") = Ok [67; 65; 77; 32; 49] /\
  field_H 0 [15; 0; 0; 0; 0; 0; 1; 0; 3; 0; 5; 0; 67; 65; 77; 32; 49]
    = Some 15 /\
  15 <> 8 + len [67; 65; 77; 32; 49].
Proof. repeat split; vm_compute; discriminate. Qed.

(** C4: the control word at offset 8 is [3 if program else 0] or-ed with
    [3 << 2 if preview else 0], that is 0x0003, 0x000C, 0x000F or 0x0000;
    each flag is read back from its own bit pair whatever the other is. *)
Theorem control_field (index : Z) (program preview : bool) (text : str)
  (bs : bytes) :
  0 <= index <= 65535 ->
  utf8_encode text = Ok bs ->
  len bs <= 65525 ->
  let control :=
    Z.lor (if program then 3 else 0) (if preview then Z.shiftl 3 2 else 0) in
  exists msg,
    build_tsl5_message index program preview text = Ok msg /\
    field_H 8 msg = Some control /\
    control = match program, preview with
              | true, false => 0x0003
              | false, true => 0x000C
              | true, true => 0x000F
              | false, false => 0x0000
              end /\
    program_of control = program /\
    preview_of control = preview.
Proof.
  intros Hi He Hl control. eexists.
  split; [apply build_layout; eassumption|].
  unfold field_H. cbn [skipn app]. rewrite unpack_H_pack.
  subst control. destruct program, preview; repeat split; reflexivity.
Qed.

Lemma control_field_witness :
  let control := Z.lor 3 (Z.shiftl 3 2) in
  exists msg,
    build_tsl5_message 2 true true (lit "CAM 2") = Ok msg /\
    field_H 8 msg = Some control /\
    control = 0x000F /\
    program_of control = true /\
    preview_of control = true.
Proof.
  apply (control_field 2 true true (lit "CAM 2") [67; 65; 77; 32; 50]).
  - lia.
  - reflexivity.
  - vm_compute. discriminate.
Defined.

(** C5, for the labels the encoder accepts: the text length at offset 10
    is the number of UTF-8 bytes of the label, which exceeds the number of
    characters as soon as one character is not ASCII; the bytes from
    offset 12 on are that encoding; decoding the frame gives back the index,
    the control word (and from it both flags) and the label. *)
Theorem text_length_roundtrip (index : Z) (program preview : bool)
  (text : str) (bs : bytes) :
  0 <= index <= 65535 ->
  utf8_encode text = Ok bs ->
  len bs <= 65525 ->
  exists msg,
    build_tsl5_message index program preview text = Ok msg /\
    field_H 10 msg = Some (len bs) /\
    skipn 12 msg = bs /\
    len text <= len bs /\
    (Exists (fun c => 0x80 <= c) text -> len text < len bs) /\
    decode_frame msg =
      Some (index, control_word program preview, text, []) /\
    program_of (control_word program preview) = program /\
    preview_of (control_word program preview) = preview.
Proof.
  intros Hi He Hl. eexists.
  split; [apply build_layout; eassumption|].
  split; [unfold field_H; cbn [skipn app]; now rewrite unpack_H_pack|].
  split; [reflexivity|].
  destruct (utf8_encode_len _ _ He) as [L1 L2].
  split; [assumption|]. split; [assumption|].
  split; [|apply control_word_flags].
  pose proof (decode_frame_layout 0 0 0 0 index
                (control_word program preview) bs []) as D.
  rewrite app_nil_r, (utf8_roundtrip _ _ He) in D. exact D.
Qed.

Lemma text_length_roundtrip_witness :
  exists msg,
    build_tsl5_message 7 false true [0x43; 0xE9; 0x20AC; 0x1F600] = Ok msg /\
    field_H 10 msg = Some (len [67; 195; 169; 226; 130; 172; 240; 159; 152; 128]) /\
    skipn 12 msg = [67; 195; 169; 226; 130; 172; 240; 159; 152; 128] /\
    len [0x43; 0xE9; 0x20AC; 0x1F600]
      <= len [67; 195; 169; 226; 130; 172; 240; 159; 152; 128] /\
    (Exists (fun c => 0x80 <= c) [0x43; 0xE9; 0x20AC; 0x1F600] ->
     len [0x43; 0xE9; 0x20AC; 0x1F600]
       < len [67; 195; 169; 226; 130; 172; 240; 159; 152; 128]) /\
    decode_frame msg =
      Some (7, control_word false true, [0x43; 0xE9; 0x20AC; 0x1F600], []) /\
    program_of (control_word false true) = false /\
    preview_of (control_word false true) = true.
Proof.
  apply (text_length_roundtrip 7 false true [0x43; 0xE9; 0x20AC; 0x1F600]
           [67; 195; 169; 226; 130; 172; 240; 159; 152; 128]).
  - lia.
  - reflexivity.
  - vm_compute. discriminate.
Defined.

(** C5 as stated fails: a label of 21842 euro signs has 65526 UTF-8 bytes,
    [struct.pack] refuses the payload length 65536 and no frame is built;
    a label holding a lone surrogate cannot be encoded at all. *)
Lemma text_length_label_rejected :
  len (repeat 0x20AC (Z.to_nat 21842)) = 21842 /\
  (bs <- utf8_encode (repeat 0x20AC (Z.to_nat 21842)) ;; Ok (len bs))
    = Ok 65526 /\
  build_tsl5_message 1 true false (repeat 0x20AC (Z.to_nat 21842))
    = Raise StructError /\
  build_tsl5_message 1 true false [0xD800] = Raise UnicodeEncodeError.
Proof. repeat split; vm_compute; reflexivity. Qed.

(** C10, for the labels the encoder accepts: the frame is 12 bytes plus the
    encoded label, the field at offset 0 counts exactly the bytes after it,
    and a receiver that delimits by that field alone consumes the frame and
    nothing else, whatever follows it in the stream. *)
Theorem frame_length_delimits (index : Z) (program preview : bool)
  (text : str) (bs : bytes) :
  0 <= index <= 65535 ->
  utf8_encode text = Ok bs ->
  len bs <= 65525 ->
  exists msg,
    build_tsl5_message index program preview text = Ok msg /\
    len msg = 12 + len bs /\
    field_H 0 msg = Some (len msg - 2) /\
    forall rest,
      decode_frame (msg ++ rest) =
        Some (index, control_word program preview, text, rest).
Proof.
  intros Hi He Hl. eexists.
  split; [apply build_layout; eassumption|].
  assert (L : forall h : bytes, List.length h = 12%nat ->
                                len (h ++ bs) = 12 + len bs)
    by (intros h Hh; rewrite len_app; unfold len; rewrite Hh; lia).
  rewrite L by reflexivity.
  split; [reflexivity|].
  split.
  - unfold field_H. cbn [skipn app]. rewrite unpack_H_pack. f_equal. lia.
  - intros rest. rewrite <- app_assoc.
    rewrite decode_frame_layout, (utf8_roundtrip _ _ He). reflexivity.
Qed.

Lemma frame_length_delimits_witness :
  exists msg,
    build_tsl5_message 4 false false (lit "4:ME1PGM:GRAPHICS") = Ok msg /\
    len msg = 12 + len (lit "4:ME1PGM:GRAPHICS") /\
    field_H 0 msg = Some (len msg - 2) /\
    forall rest,
      decode_frame (msg ++ rest) =
        Some (4, control_word false false, lit "4:ME1PGM:GRAPHICS", rest).
Proof.
  apply (frame_length_delimits 4 false false (lit "4:ME1PGM:GRAPHICS")
           (lit "4:ME1PGM:GRAPHICS")).
  - lia.
  - reflexivity.
  - vm_compute. discriminate.
Defined.

(** C10 as stated fails: with index 0 and a label of 65526 letters the
    payload length would be 65536, [struct.pack] raises and the encoder has
    no output; 65525 letters is the longest label it accepts. *)
Lemma frame_length_label_too_long :
  build_tsl5_message 0 false false (repeat 0x41 (Z.to_nat 65526))
    = Raise StructError /\
  (msg <- build_tsl5_message 0 false false (repeat 0x41 (Z.to_nat 65525)) ;;
   Ok (field_H 0 msg, len msg)) = Ok (Some 65535, 65537).
Proof. split; vm_compute; reflexivity. Qed.

(** ** The tally client driver *)

(** One pass of the loop at a cursor inside the catalog. *)
Lemma tick_in_catalog (cur : Z) :
  0 <= cur < len SOURCES ->
  exists sent,
    tick cur = Ok (sent, (cur + 1) mod len SOURCES) /\
    map source_index sent = map fst SOURCES /\
    List.length (filter is_program sent) = 1%nat /\
    option_map is_program (nth_error sent (Z.to_nat cur)) = Some true /\
    List.length (filter is_preview sent) = 1%nat /\
    option_map is_preview
      (nth_error sent (Z.to_nat ((cur + 1) mod len SOURCES))) = Some true /\
    Forall (fun t => field_H 8 (frame t)
                     = Some (control_word (is_program t) (is_preview t))) sent /\
    0 <= (cur + 1) mod len SOURCES < len SOURCES /\
    cursor_after (List.length SOURCES) cur = Ok cur.
Proof.
  change (len SOURCES) with 4. intros H.
  assert (C : cur = 0 \/ cur = 1 \/ cur = 2 \/ cur = 3) by lia.
  destruct C as [-> | [-> | [-> | ->]]];
    (eexists; split; [vm_compute; reflexivity|];
     repeat split; try reflexivity; try (vm_compute; discriminate);
     repeat constructor).
Qed.




(** ** The broadcast server *)

Import Ross.

Lemma writes_app (o1 o2 : list output) :
  writes (o1 ++ o2) = writes o1 ++ writes o2.
Proof.
  induction o1 as [|o o1 IH]; [reflexivity|].
  destruct o; cbn [app writes]; rewrite IH; reflexivity.
Qed.

Lemma received_app (c : sock) (o1 o2 : list output) :
  received c (o1 ++ o2) = received c o1 ++ received c o2.
Proof.
  unfold received. now rewrite writes_app, filter_app, map_app.
Qed.

Lemma filter_filter_and {A : Type} (f g : A -> bool) (l : list A) :
  filter f (filter g l) = filter (fun x => g x && f x) l.
Proof.
  induction l as [|x l IH]; [reflexivity|]. cbn [filter].
  destruct (g x); cbn [filter andb]; rewrite IH; reflexivity.
Qed.

Lemma filter_all_true {A : Type} (f : A -> bool) (l : list A) :
  (forall x, f x = true) -> filter f l = l.
Proof.
  intros H. induction l as [|x l IH]; [reflexivity|].
  cbn [filter]. now rewrite H, IH.
Qed.

Lemma filter_all_true_in {A : Type} (f : A -> bool) (l : list A) :
  (forall x, In x l -> f x = true) -> filter f l = l.
Proof.
  induction l as [|x l IH]; intros H; [reflexivity|].
  cbn [filter]. rewrite (H x (or_introl eq_refl)), IH; [reflexivity|].
  intros y Hy. apply H. now right.
Qed.

Lemma filter_neq_absent (x : sock) (l : list sock) :
  ~ In x l -> filter (fun y => negb (Nat.eqb y x)) l = l.
Proof.
  induction l as [|z l IH]; intros H; [reflexivity|]. cbn [filter].
  destruct (Nat.eqb_spec z x) as [->|_]; cbn [negb].
  - exfalso. apply H. now left.
  - f_equal. apply IH. intros Hin. apply H. now right.
Qed.

Lemma list_remove_nodup (x : sock) (l : list sock) :
  NoDup l -> In x l ->
  list_remove x l = Ok (filter (fun y => negb (Nat.eqb y x)) l).
Proof.
  induction 1 as [|z l Hz Hnd IH]; intros Hin; [destruct Hin|].
  cbn [list_remove filter]. destruct (Nat.eqb_spec z x) as [->|Hne]; cbn [negb].
  - now rewrite filter_neq_absent.
  - destruct Hin as [->|Hin]; [congruence|]. now rewrite IH.
Qed.

Lemma filter_neq_length (k : sock) (l : list sock) :
  NoDup l -> In k l ->
  S (List.length (filter (fun c => negb (Nat.eqb c k)) l)) = List.length l.
Proof.
  induction 1 as [|z l Hz Hnd IH]; intros Hin; [destruct Hin|].
  cbn [filter]. destruct (Nat.eqb_spec z k) as [->|Hne]; cbn [negb List.length].
  - now rewrite filter_neq_absent.
  - destruct Hin as [->|Hin]; [congruence|]. now rewrite IH.
Qed.

Lemma existsb_eqb_In (c : sock) (l : list sock) :
  existsb (Nat.eqb c) l = true <-> In c l.
Proof.
  rewrite existsb_exists. split.
  - intros (x & Hin & He). apply Nat.eqb_eq in He. now subst.
  - intros H. exists c. split; [assumption|apply Nat.eqb_refl].
Qed.

Lemma list_remove_count (x : sock) (l : list sock) :
  In x l ->
  exists l',
    list_remove x l = Ok l' /\
    forall y, count_occ Nat.eq_dec l' y
              = (count_occ Nat.eq_dec l y
                 - (if Nat.eq_dec x y then 1 else 0))%nat.
Proof.
  induction l as [|z l IH]; intros Hin; [destruct Hin|].
  cbn [list_remove]. destruct (Nat.eqb_spec z x) as [->|Hne].
  - exists l. split; [reflexivity|]. intros y. cbn [count_occ].
    destruct (Nat.eq_dec x y); lia.
  - destruct Hin as [->|Hin]; [congruence|].
    destruct (IH Hin) as (l' & -> & Hc). cbn [bind].
    exists (z :: l'). split; [reflexivity|]. intros y. cbn [count_occ].
    rewrite Hc. destruct (Nat.eq_dec z y), (Nat.eq_dec x y); lia.
Qed.

Lemma list_remove_raises (x : sock) (l : list sock) (e : exn) :
  list_remove x l = Raise e -> e = ValueError /\ ~ In x l.
Proof.
  induction l as [|y l IH]; cbn [list_remove].
  - intros [= <-]. split; [reflexivity|intros []].
  - destruct (Nat.eqb_spec y x) as [->|Hne]; [discriminate|].
    destruct (list_remove x l) as [l'|e']; cbn [bind]; [discriminate|].
    intros [= <-]. destruct (IH eq_refl) as [-> Hn].
    split; [reflexivity|]. intros [H|H]; [congruence|contradiction].
Qed.

Lemma list_remove_absent (x : sock) (l : list sock) :
  ~ In x l -> list_remove x l = Raise ValueError.
Proof.
  intros H. destruct (list_remove x l) as [l'|e] eqn:E.
  - exfalso. revert l' E. induction l as [|y l IH]; intros l' E;
      [discriminate|]. cbn [list_remove] in E.
    destruct (Nat.eqb_spec y x) as [->|Hne]; [apply H; now left|].
    destruct (list_remove x l) as [l1|]; [|discriminate].
    eapply IH; [|reflexivity]. intros Hin. apply H. now right.
  - now destruct (list_remove_raises _ _ _ E) as [-> _].
Qed.

Lemma list_remove_incl (x : sock) (l l' : list sock) :
  list_remove x l = Ok l' -> incl l' l.
Proof.
  revert l'. induction l as [|y l IH]; intros l'; cbn [list_remove];
    [discriminate|].
  destruct (Nat.eqb_spec y x) as [->|Hne].
  - intros [= <-]. apply incl_tl, incl_refl.
  - destruct (list_remove x l) as [l1|]; cbn [bind]; [|discriminate].
    intros [= <-]. intros z [->|Hz]; [now left|right].
    now apply (IH l1 eq_refl).
Qed.

Section BroadcastFacts.

Variable broken : sock -> bool.
Variable stdout_encodes : Z -> bool.
Variable command : str.

Lemma iteration_output_cases (client : sock) (st : State) :
  iteration_output broken stdout_encodes command st client =
  match utf8_encode (command ++ CRLF) with
  | Ok data =>
      if send_raises broken st client then [PrintError client]
      else if print_raises stdout_encodes command
           then [Send client data; PrintError client]
           else [Send client data; PrintSent command]
  | Raise _ => [PrintError client]
  end.
Proof.
  unfold iteration_output, try_send.
  destruct (utf8_encode (command ++ CRLF)) as [data|];
    [|cbn [fst snd]; now rewrite skipn_all].
  destruct (send_raises broken st client);
    [cbn [fst snd]; now rewrite skipn_all|].
  cbv zeta. destruct (print_raises stdout_encodes command);
    cbn [fst snd emit out]; rewrite <- ?app_assoc, skipn_len_app;
    reflexivity.
Qed.

Lemma try_fails_cases (client : sock) (st : State) :
  try_fails broken stdout_encodes command st client =
  match utf8_encode (command ++ CRLF) with
  | Ok _ => send_raises broken st client
            || print_raises stdout_encodes command
  | Raise _ => true
  end.
Proof.
  unfold try_fails, try_send.
  destruct (utf8_encode (command ++ CRLF)); [|reflexivity].
  destruct (send_raises broken st client); [reflexivity|].
  cbv zeta. destruct (print_raises stdout_encodes command); reflexivity.
Qed.

(** Both depend on the state through the closed sockets alone. *)
Lemma try_fails_closed (st st1 : State) (client : sock) :
  closed st1 = closed st ->
  try_fails broken stdout_encodes command st1 client
  = try_fails broken stdout_encodes command st client.
Proof.
  intros H. rewrite !try_fails_cases. unfold send_raises. now rewrite H.
Qed.

Lemma iteration_output_closed (st st1 : State) (client : sock) :
  closed st1 = closed st ->
  iteration_output broken stdout_encodes command st1 client
  = iteration_output broken stdout_encodes command st client.
Proof.
  intros H. rewrite !iteration_output_cases. unfold send_raises.
  now rewrite H.
Qed.

(** One iteration in closed form: its output is added, and the peer is
    taken out of the list when the [try] body raised. *)
Lemma loop_body_cases (client : sock) (st : State) :
  loop_body broken stdout_encodes command (command ++ CRLF) client st =
  if try_fails broken stdout_encodes command st client
  then l <- list_remove client (clients st) ;;
       Ok (extend l (iteration_output broken stdout_encodes command st client) st)
  else Ok (extend (clients st)
             (iteration_output broken stdout_encodes command st client) st).
Proof.
  rewrite try_fails_cases, iteration_output_cases.
  unfold loop_body, try_send.
  destruct (utf8_encode (command ++ CRLF)) as [data|].
  - destruct (send_raises broken st client); cbn [orb].
    + cbn [emit clients]. now destruct (list_remove client (clients st)).
    + cbv zeta. destruct (print_raises stdout_encodes command).
      * cbn [emit clients].
        destruct (list_remove client (clients st)); [|reflexivity].
        cbn [bind]. unfold extend, set_clients, emit.
        cbn [server_socket clients running closed out].
        now rewrite <- app_assoc.
      * unfold extend, emit.
        cbn [server_socket clients running closed out].
        now rewrite <- app_assoc.
  - cbn [emit clients]. now destruct (list_remove client (clients st)).
Qed.

(** The loop never lets an exception out when every peer occurs in the
    list at least as often as in the snapshot; its output is that of its
    iterations, in snapshot order, and a peer leaves the list once for
    each iteration whose [try] body raised. *)
Lemma for_clients_total (snapshot : list sock) :
  forall st : State,
    (forall y, (count_occ Nat.eq_dec snapshot y
                <= count_occ Nat.eq_dec (clients st) y)%nat) ->
    exists st',
      for_clients broken stdout_encodes snapshot command (command ++ CRLF) st
      = Ok st' /\
      out st' = out st
                ++ flat_map (iteration_output broken stdout_encodes command st)
                            snapshot /\
      closed st' = closed st /\
      server_socket st' = server_socket st /\
      running st' = running st /\
      forall y,
        count_occ Nat.eq_dec (clients st') y
        = (count_occ Nat.eq_dec (clients st) y
           - (if try_fails broken stdout_encodes command st y
              then count_occ Nat.eq_dec snapshot y else 0))%nat.
Proof.
  induction snapshot as [|client rest IH]; intros st Hc.
  - exists st. cbn [for_clients flat_map count_occ]. rewrite app_nil_r.
    repeat split. intros y.
    destruct (try_fails broken stdout_encodes command st y); lia.
  - cbn [for_clients flat_map]. rewrite loop_body_cases.
    set (o := iteration_output broken stdout_encodes command st client).
    destruct (try_fails broken stdout_encodes command st client) eqn:Hw.
    + assert (Hin : In client (clients st)).
      { apply (count_occ_In Nat.eq_dec). specialize (Hc client).
        cbn [count_occ] in Hc. destruct (Nat.eq_dec client client); [lia|].
        congruence. }
      destruct (list_remove_count _ _ Hin) as (l & -> & Hl). cbn [bind].
      destruct (IH (extend l o st)) as (st' & -> & Ho & Hcl & Hs & Hr & Hn).
      { intros y. specialize (Hc y). cbn [count_occ] in Hc.
        cbn [extend clients]. rewrite Hl.
        destruct (Nat.eq_dec client y); lia. }
      exists st'. split; [reflexivity|]. rewrite Ho.
      cbn [extend out closed server_socket running clients] in *.
      rewrite <- app_assoc. split.
      { do 2 f_equal. apply flat_map_ext. intros c.
        now apply iteration_output_closed. }
      repeat (split; [assumption|]). intros y. rewrite Hn, Hl.
      rewrite (try_fails_closed st (extend l o st) y eq_refl).
      specialize (Hc y). cbn [count_occ] in *.
      destruct (Nat.eq_dec client y) as [<-|Hne].
      * rewrite Hw. lia.
      * destruct (try_fails broken stdout_encodes command st y); lia.
    + cbn [bind].
      destruct (IH (extend (clients st) o st))
        as (st' & -> & Ho & Hcl & Hs & Hr & Hn).
      { intros y. specialize (Hc y). cbn [count_occ] in Hc.
        cbn [extend clients]. destruct (Nat.eq_dec client y); lia. }
      exists st'. split; [reflexivity|]. rewrite Ho.
      cbn [extend out closed server_socket running clients] in *.
      rewrite <- app_assoc. split.
      { do 2 f_equal. apply flat_map_ext. intros c.
        now apply iteration_output_closed. }
      repeat (split; [assumption|]). intros y. rewrite Hn.
      rewrite (try_fails_closed st (extend (clients st) o st) y eq_refl).
      cbn [count_occ].
      destruct (Nat.eq_dec client y) as [<-|Hne]; [|reflexivity].
      rewrite Hw. reflexivity.
Qed.

(** [send_command], run on its own, always returns. *)
Lemma send_command_total (st : State) :
  exists st',
    send_command broken stdout_encodes command st = Ok st' /\
    out st' = out st ++
              match clients st with
              | [] => [PrintWarn]
              | _ :: _ =>
                  flat_map (iteration_output broken stdout_encodes command st)
                           (clients st)
              end /\
    closed st' = closed st /\
    server_socket st' = server_socket st /\
    running st' = running st /\
    forall y,
      count_occ Nat.eq_dec (clients st') y
      = if try_fails broken stdout_encodes command st y then 0%nat
        else count_occ Nat.eq_dec (clients st) y.
Proof.
  unfold send_command. destruct (clients st) as [|c l] eqn:E.
  - exists (emit PrintWarn st). cbn [emit out clients closed server_socket
      running]. rewrite E. repeat split. intros y. cbn [count_occ].
    now destruct (try_fails broken stdout_encodes command st y).
  - rewrite <- E.
    destruct (for_clients_total (clients st) st (fun y => le_n _))
      as (st' & Hs & Ho & Hcl & Hss & Hr & Hn).
    exists st'. repeat (split; [assumption|]). intros y. rewrite Hn.
    destruct (try_fails broken stdout_encodes command st y); lia.
Qed.

(** With no duplicates, the loop leaves in the list exactly the peers of
    the snapshot for which the [try] body did not raise, in their
    order. *)
Lemma for_clients_clients (snapshot : list sock) :
  forall st st' : State,
    NoDup snapshot -> NoDup (clients st) -> incl snapshot (clients st) ->
    for_clients broken stdout_encodes snapshot command (command ++ CRLF) st
    = Ok st' ->
    clients st' =
    filter (fun c => negb (existsb (Nat.eqb c) snapshot
                           && try_fails broken stdout_encodes command st c))
           (clients st).
Proof.
  induction snapshot as [|client rest IH]; intros st st' Hs Hc Hi H.
  - injection H as <-. symmetry. apply filter_all_true.
    intros c. reflexivity.
  - inversion Hs as [|? ? Hnotin Hrest]; subst.
    cbn [for_clients] in H. rewrite loop_body_cases in H.
    set (o := iteration_output broken stdout_encodes command st client) in H.
    assert (Hin : In client (clients st)) by (apply Hi; now left).
    assert (Hi' : incl rest (clients st))
      by (intros r Hr; apply Hi; now right).
    destruct (try_fails broken stdout_encodes command st client) eqn:Hw.
    + rewrite (list_remove_nodup _ _ Hc Hin) in H. cbn [bind] in H.
      assert (Hi2 : incl rest (filter (fun y => negb (Nat.eqb y client))
                                       (clients st))).
      { intros r Hr. apply filter_In. split; [now apply Hi'|].
        destruct (Nat.eqb_spec r client) as [->|_];
          [contradiction|reflexivity]. }
      set (l := filter (fun y => negb (Nat.eqb y client)) (clients st)) in *.
      assert (Hnd2 : NoDup (clients (extend l o st)))
        by (cbn [extend clients]; subst l; now apply NoDup_filter).
      rewrite (IH (extend l o st) st' Hrest Hnd2 Hi2 H).
      cbn [extend clients]. subst l. rewrite filter_filter_and. apply filter_ext.
      intros c. cbn [existsb].
      rewrite (try_fails_closed st (extend (filter (fun y => negb (Nat.eqb y client)) (clients st)) o st) c eq_refl).
      destruct (Nat.eqb_spec c client) as [->|_]; cbn [orb negb andb];
        [|reflexivity].
      now rewrite Hw.
    + cbn [bind] in H.
      rewrite (IH (extend (clients st) o st) st' Hrest Hc Hi' H).
      cbn [extend clients]. apply filter_ext. intros c. cbn [existsb].
      rewrite (try_fails_closed st (extend (clients st) o st) c eq_refl).
      destruct (Nat.eqb_spec c client) as [->|_]; cbn [orb]; [|reflexivity].
      rewrite Hw. now rewrite !andb_false_r.
Qed.

Lemma send_command_nodup (st st' : State) :
  NoDup (clients st) ->
  send_command broken stdout_encodes command st = Ok st' ->
  clients st'
  = filter (fun c => negb (try_fails broken stdout_encodes command st c))
           (clients st).
Proof.
  intros Hnd Hs. unfold send_command in Hs.
  destruct (clients st) as [|c0 l0] eqn:E.
  - injection Hs as <-. cbn [emit clients]. now rewrite E.
  - rewrite <- E in *.
    rewrite (for_clients_clients _ _ _ Hnd Hnd (incl_refl _) Hs).
    apply filter_ext_in. intros c Hin.
    now rewrite (proj2 (existsb_eqb_In c (clients st)) Hin).
Qed.

(** What a peer is handed by the iteration of [x]: the encoded line when
    [x] is that peer and its [send] returned. *)
Lemma received_iteration (st : State) (c x : sock) :
  received c (iteration_output broken stdout_encodes command st x) =
  if Nat.eqb x c && negb (send_raises broken st x)
  then sent_data command else [].
Proof.
  rewrite iteration_output_cases. unfold sent_data.
  destruct (utf8_encode (command ++ CRLF)) as [data|].
  - destruct (send_raises broken st x); cbn [negb];
      [now rewrite andb_false_r|]. rewrite andb_true_r.
    destruct (print_raises stdout_encodes command);
      unfold received; cbn [writes filter fst map];
      destruct (Nat.eqb x c); reflexivity.
  - now destruct (Nat.eqb x c && negb (send_raises broken st x)).
Qed.

Lemma received_flat_map (st : State) (c : sock) (l : list sock) :
  NoDup l ->
  received c (flat_map (iteration_output broken stdout_encodes command st) l) =
  if existsb (Nat.eqb c) l && negb (send_raises broken st c)
  then sent_data command else [].
Proof.
  induction 1 as [|x l Hx Hnd IH]; [reflexivity|].
  cbn [flat_map existsb]. rewrite received_app, received_iteration, IH.
  rewrite (Nat.eqb_sym c x).
  destruct (Nat.eqb_spec x c) as [->|_]; cbn [orb andb].
  - destruct (existsb (Nat.eqb c) l) eqn:E.
    + apply existsb_eqb_In in E. contradiction.
    + cbn [andb]. apply app_nil_r.
  - reflexivity.
Qed.

(** The loop lets [ValueError] out as soon as its snapshot holds a peer
    that is no longer listed and for which the [try] body raises. *)
Lemma for_clients_vanished (snapshot : list sock) :
  forall (st : State) (c : sock),
    In c snapshot ->
    ~ In c (clients st) ->
    try_fails broken stdout_encodes command st c = true ->
    for_clients broken stdout_encodes snapshot command (command ++ CRLF) st
    = Raise ValueError.
Proof.
  induction snapshot as [|x rest IH]; intros st c Hin Hout Hw; [destruct Hin|].
  cbn [for_clients]. rewrite loop_body_cases.
  set (o := iteration_output broken stdout_encodes command st x).
  destruct (try_fails broken stdout_encodes command st x) eqn:Hx.
  - destruct (list_remove x (clients st)) as [l|e'] eqn:Hl; cbn [bind].
    + destruct Hin as [->|Hin].
      * rewrite (list_remove_absent _ _ Hout) in Hl. discriminate.
      * apply (IH _ c Hin).
        -- cbn [extend clients]. intros Hc. apply Hout.
           now apply (list_remove_incl _ _ _ Hl).
        -- now rewrite (try_fails_closed st (extend l o st) c eq_refl).
    + now destruct (list_remove_raises _ _ _ Hl) as [-> _].
  - cbn [bind]. destruct Hin as [->|Hin]; [congruence|].
    apply (IH _ c Hin); [assumption|].
    now rewrite (try_fails_closed st (extend (clients st) o st) c eq_refl).
Qed.

End BroadcastFacts.

(** C9: with no peer connected, [send_command] returns normally after
    printing the no-clients warning; it writes to no socket and leaves the
    client list, the listening socket, the running flag and the closed
    sockets as they were. *)
Theorem broadcast_no_peers (broken : sock -> bool)
  (stdout_encodes : Z -> bool) (command : str) (st : State) :
  clients st = [] ->
  exists st',
    send_command broken stdout_encodes command st = Ok st' /\
    out st' = out st ++ [PrintWarn] /\
    writes (out st') = writes (out st) /\
    clients st' = [] /\
    server_socket st' = server_socket st /\
    running st' = running st /\
    closed st' = closed st.
Proof.
  intros H. exists (emit PrintWarn st). unfold send_command. rewrite H.
  cbn [emit out clients server_socket running closed].
  rewrite writes_app, app_nil_r. auto 8.
Qed.

Lemma broadcast_no_peers_witness :
  exists st',
    send_command (fun _ => false) (fun _ => true) (lit "MECUT ME:1") init
    = Ok st' /\
    out st' = out init ++ [PrintWarn] /\
    writes (out st') = writes (out init) /\
    clients st' = [] /\
    server_socket st' = server_socket init /\
    running st' = running init /\
    closed st' = closed init.
Proof.
  apply (broadcast_no_peers (fun _ => false) (fun _ => true)
           (lit "MECUT ME:1") init).
  reflexivity.
Defined.

(** C2 at two failing inputs.  First: three peers, the write to peer 2
    fails, the command holds a character the encoding of stdout cannot
    encode; peers 1 and 3 are handed the whole line, but the [print] of
    line 90 raises inside the [try] and the handler removes them as well:
    the list ends empty and the next broadcast writes to nobody instead
    of the two remaining peers.  Second: the reader thread of peer 2 ends
    after the list has been copied and the write to peer 2 then fails;
    the unguarded [self.clients.remove] raises [ValueError], which
    reaches the caller. *)
Theorem broadcast_one_failure_drops_more :
  send_command (fun c => Nat.eqb c 2) (fun _ => false)
    (lit "SALVO " ++ [0xE9])
    (mkState (Some 0%nat) [1; 2; 3]%nat true [] [])
  = Ok (mkState (Some 0%nat) [] true []
          [ Send 1%nat [83; 65; 76; 86; 79; 32; 195; 169; 13; 10];
            PrintError 1%nat;
            PrintError 2%nat;
            Send 3%nat [83; 65; 76; 86; 79; 32; 195; 169; 13; 10];
            PrintError 3%nat ]) /\
  try_fails (fun c => Nat.eqb c 2) (fun _ => false) (lit "SALVO " ++ [0xE9])
    (mkState (Some 0%nat) [1; 2; 3]%nat true [] []) 1%nat = true /\
  send_raises (fun c => Nat.eqb c 2)
    (mkState (Some 0%nat) [1; 2; 3]%nat true [] []) 1%nat = false /\
  send_command (fun _ => false) (fun _ => false) (lit "SALVO 1")
    (mkState (Some 0%nat) [] true []
       [ Send 1%nat [83; 65; 76; 86; 79; 32; 195; 169; 13; 10];
         PrintError 1%nat;
         PrintError 2%nat;
         Send 3%nat [83; 65; 76; 86; 79; 32; 195; 169; 13; 10];
         PrintError 3%nat ])
  = Ok (mkState (Some 0%nat) [] true []
          [ Send 1%nat [83; 65; 76; 86; 79; 32; 195; 169; 13; 10];
            PrintError 1%nat;
            PrintError 2%nat;
            Send 3%nat [83; 65; 76; 86; 79; 32; 195; 169; 13; 10];
            PrintError 3%nat;
            PrintWarn ]) /\
  receive_exit 2%nat (mkState (Some 0%nat) [1; 2; 3]%nat true [] [])
  = Ok (mkState (Some 0%nat) [1; 3]%nat true [] [], 2) /\
  for_clients (fun c => Nat.eqb c 2) (fun _ => true) [1; 2; 3]%nat
    (lit "MECUT ME:1") (lit "MECUT ME:1" ++ CRLF)
    (mkState (Some 0%nat) [1; 3]%nat true [] [])
  = Raise ValueError.
Proof. repeat split; reflexivity. Qed.

Lemma utf8_encode_ascii_in (s : str) (bs : bytes) (b : Z) :
  utf8_encode s = Ok bs -> 0 <= b < 0x80 -> In b s -> In b bs.
Proof.
  revert bs. induction s as [|c s IH]; intros bs H Hb Hin; [destruct Hin|].
  destruct (utf8_encode_cons _ _ _ H) as (e & bs' & He & Hs & ->).
  apply in_or_app. destruct Hin as [->|Hin]; [left|right; eauto].
  unfold encode_cp in He.
  destruct (Z.ltb_spec b 0); [lia|]. destruct (Z.ltb_spec b 0x80); [|lia].
  injection He as <-. now left.
Qed.

(** C6, as the code has it: [send_command] always returns, and every line
    it writes to a peer is the UTF-8 encoding of the command followed by
    CR LF; the command is passed through verbatim, so the bytes before the
    terminator contain a CR or an LF exactly when the command does. *)
Theorem serialized_command_line (broken : sock -> bool)
  (stdout_encodes : Z -> bool) (command : str) (st : State) :
  exists st' new,
    send_command broken stdout_encodes command st = Ok st' /\
    out st' = out st ++ new /\
    forall c data,
      In (Send c data) new ->
      exists body,
        utf8_encode command = Ok body /\
        data = body ++ [13; 10] /\
        (In 13 body \/ In 10 body <-> In 13 command \/ In 10 command).
Proof.
  destruct (send_command_total broken stdout_encodes command st)
    as (st' & Hs & Ho & _).
  exists st'. eexists. split; [exact Hs|]. split; [exact Ho|].
  intros c data Hin.
  assert (He : utf8_encode (command ++ CRLF) = Ok data).
  { destruct (clients st) as [|c0 l0].
    - destruct Hin as [Hin|[]]. discriminate.
    - apply in_flat_map in Hin. destruct Hin as (x & _ & Hin).
      rewrite iteration_output_cases in Hin.
      destruct (utf8_encode (command ++ CRLF)) as [d|].
      + destruct (send_raises broken st x);
          [|destruct (print_raises stdout_encodes command)];
          cbn [In] in Hin; intuition (try discriminate); congruence.
      + cbn [In] in Hin. intuition discriminate. }
  rewrite utf8_encode_app in He.
  destruct (utf8_encode command) as [body|] eqn:Hb; cbn [bind] in He;
    [|discriminate].
  change (utf8_encode CRLF) with (Ok [13; 10]) in He. cbn [bind] in He.
  injection He as <-. exists body. split; [reflexivity|].
  split; [reflexivity|]. split.
  - intros [H|H]; [left|right]; eapply utf8_encode_ascii; eauto; lia.
  - intros [H|H]; [left|right]; eapply utf8_encode_ascii_in; eauto; lia.
Qed.

(** C6 as stated fails: a command with an embedded line feed is written
    as it is, so the line sent holds an LF before its terminator. *)
Lemma embedded_line_feed_is_sent :
  send_command (fun _ => false) (fun _ => true)
    (lit "MECUT" ++ [10] ++ lit "ME:1")
    (mkState (Some 0%nat) [1%nat] true [] [])
  = Ok (mkState (Some 0%nat) [1%nat] true []
          [ Send 1%nat [77; 69; 67; 85; 84; 10; 77; 69; 58; 49; 13; 10];
            PrintSent (lit "MECUT" ++ [10] ++ lit "ME:1") ]) /\
  In 10 (firstn 10 [77; 69; 67; 85; 84; 10; 77; 69; 58; 49; 13; 10]).
Proof. split; [reflexivity|]. cbn. auto 10. Qed.



(** ** The keyer toggle test *)

Lemma last_written_send (o : list output) (c : sock) (data : bytes)
  (command : str) :
  last_written (o ++ [Send c data; PrintSent command]) = Some data.
Proof.
  unfold last_written. rewrite writes_app. cbn [writes].
  rewrite rev_app_distr. reflexivity.
Qed.

Lemma last_written_print (o : list output) :
  last_written (o ++ [PrintStopped]) = last_written o.
Proof.
  unfold last_written. rewrite writes_app. cbn [writes].
  now rewrite app_nil_r.
Qed.

Section SinglePeer.

Variable broken : sock -> bool.
Variable stdout_encodes : Z -> bool.
Variable peer : sock.
Hypothesis healthy : broken peer = false.

Lemma send_command_single (command : str) (data : bytes) (st : State) :
  single peer st ->
  utf8_encode (command ++ CRLF) = Ok data ->
  print_raises stdout_encodes command = false ->
  exists st',
    send_command broken stdout_encodes command st = Ok st' /\
    single peer st' /\
    out st' = out st ++ [Send peer data; PrintSent command].
Proof.
  intros [Hc Hcl] He Hp. unfold send_command. rewrite Hc.
  cbn [for_clients]. rewrite loop_body_cases.
  rewrite try_fails_cases, iteration_output_cases, He.
  unfold send_raises. rewrite healthy, Hcl, Hp. cbn [orb bind].
  eexists. split; [reflexivity|]. cbn [extend out clients closed].
  repeat split; assumption.
Qed.

Lemma send_off (st : State) :
  single peer st ->
  exists st',
    send_command broken stdout_encodes KEYCUT_OFF st = Ok st' /\
    single peer st' /\
    out st' = out st ++ [Send peer off_line; PrintSent KEYCUT_OFF].
Proof. intros H. now apply send_command_single. Qed.

Lemma send_on (st : State) :
  single peer st ->
  exists st',
    send_command broken stdout_encodes KEYCUT_ON st = Ok st' /\
    single peer st' /\
    out st' = out st ++ [Send peer on_line; PrintSent KEYCUT_ON].
Proof. intros H. now apply send_command_single. Qed.

Ltac step_send L H :=
  let st1 := fresh "st" in
  let H1 := fresh "H" in
  let Ho := fresh "Ho" in
  destruct (L _ H) as (st1 & -> & H1 & Ho); cbn [bind].

Ltac finish :=
  eexists; split; [reflexivity|]; cbn [emit out];
  rewrite ?last_written_print;
  repeat match goal with
    | Ho : out _ = _ |- _ => rewrite Ho, ?last_written_send; clear Ho
    end;
  reflexivity.

(** The last line on the wire when the test exits, by cancellation
    point. *)
Lemma toggle_loop_single (p : cancel_point) (n : nat) :
  forall (keyer_on : bool) (st : State),
    single peer st ->
    exists st',
      toggle_loop broken stdout_encodes n p keyer_on st = Ok st' /\
      last_written (out st') =
      match p with
      | DuringSleep => Some off_line
      | AfterSend =>
          Some (if xorb keyer_on (Nat.odd n) then off_line else on_line)
      | BeforeSend =>
          if xorb keyer_on (Nat.odd n) then Some off_line
          else match n with
               | O => last_written (out st)
               | S _ => Some off_line
               end
      end.
Proof.
  induction n as [|n IH]; intros keyer_on st Hst.
  - destruct p, keyer_on;
      cbn [toggle_loop]; cbv zeta; unfold on_interrupt;
      change (Nat.odd 0) with false; cbn [negb xorb].
    + step_send send_off Hst. finish.
    + cbn [bind]. finish.
    + step_send send_off Hst. step_send send_off H. finish.
    + step_send send_on Hst. finish.
    + step_send send_off Hst. finish.
    + step_send send_on Hst. step_send send_off H. finish.
  - rewrite Nat.odd_succ, <- Nat.negb_odd.
    destruct keyer_on; cbn [toggle_loop negb]; cbv zeta.
    + step_send send_off Hst.
      destruct (IH false _ H) as (st' & -> & Hl).
      exists st'. split; [reflexivity|]. rewrite Hl.
      destruct p, (Nat.odd n) eqn:En; cbn [xorb negb]; try reflexivity.
      destruct n; [|reflexivity]. now rewrite Ho, last_written_send.
    + step_send send_on Hst.
      destruct (IH true _ H) as (st' & -> & Hl).
      exists st'. split; [reflexivity|]. rewrite Hl.
      destruct p, (Nat.odd n) eqn:En; cbn [xorb negb]; try reflexivity.
      destruct n; [vm_compute in En; discriminate|reflexivity].
Qed.

End SinglePeer.

(** Cancelled in the sleep, after any number of whole iterations, the test
    exits with the off line as the last one on the wire. *)
Lemma toggle_cancelled_in_sleep (broken : sock -> bool)
  (stdout_encodes : Z -> bool) (peer : sock)
  (n : nat) (st : State) :
  broken peer = false ->
  single peer st ->
  exists st',
    _run_keyer_toggle_test broken stdout_encodes n DuringSleep st = Ok st' /\
    last_written (out st') = Some off_line.
Proof.
  intros Hb Hs. unfold _run_keyer_toggle_test.
  now apply (toggle_loop_single broken stdout_encodes peer Hb DuringSleep).
Qed.

(** Cancelled between the on command and the assignment of the flag, the
    test exits with the on line as the last one on the wire. *)
Lemma toggle_cancelled_before_flag (broken : sock -> bool)
  (stdout_encodes : Z -> bool) (peer : sock)
  (n : nat) (st : State) :
  broken peer = false ->
  single peer st ->
  Nat.odd n = false ->
  exists st',
    _run_keyer_toggle_test broken stdout_encodes n AfterSend st = Ok st' /\
    last_written (out st') = Some on_line.
Proof.
  intros Hb Hs Hn. unfold _run_keyer_toggle_test.
  destruct (toggle_loop_single broken stdout_encodes peer Hb AfterSend n false st Hs)
    as (st' & H1 & H2).
  exists st'. split; [assumption|]. now rewrite H2, Hn.
Qed.

(** C8 at the failing input: one connected peer, the interrupt raised in
    the first iteration after [send_command("KEYCUT ME:1:1")] returned and
    before [keyer_on = True]; the handler sees the flag still false and
    sends nothing, so the on line is the last one written. *)
Theorem toggle_interrupt_leaves_keyer_on :
  _run_keyer_toggle_test (fun _ => false) (fun _ => true) 0 AfterSend
    (mkState (Some 0%nat) [1%nat] true [] [])
  = Ok (mkState (Some 0%nat) [1%nat] true []
          [Send 1%nat on_line; PrintSent KEYCUT_ON; PrintStopped]) /\
  last_written [Send 1%nat on_line; PrintSent KEYCUT_ON; PrintStopped]
  = Some on_line /\
  utf8_encode (KEYCUT_ON ++ CRLF) = Ok on_line /\
  on_line <> off_line.
Proof. repeat split; try reflexivity. discriminate. Qed.

(** * Further properties of the tally encoder and driver *)

Lemma utf8_encode_raises (s : str) (e : exn) :
  utf8_encode s = Raise e -> e = UnicodeEncodeError.
Proof.
  induction s as [|c s IH]; cbn [utf8_encode]; [discriminate|].
  destruct (encode_cp c); [|now intros [= <-]].
  destruct (utf8_encode s); cbn [bind]; [discriminate|].
  intros [= <-]. now apply IH.
Qed.

(** [build_tsl5_message] in closed form: which inputs it refuses, with
    which exception, and the frame it returns for the others.  An
    unencodable label is reported before a bad index or an oversized
    label. *)
Theorem build_result (index : Z) (program preview : bool) (text : str) :
  build_tsl5_message index program preview text =
  match utf8_encode text with
  | Raise _ => Raise UnicodeEncodeError
  | Ok bs =>
      if (len bs <=? 65525) && (0 <=? index) && (index <=? 65535) then
        Ok ([ (10 + len bs) mod 256; (10 + len bs) / 256; 0; 0; 0; 0;
              index mod 256; index / 256;
              control_word program preview mod 256;
              control_word program preview / 256;
              len bs mod 256; len bs / 256 ] ++ bs)
      else Raise StructError
  end.
Proof.
  destruct (utf8_encode text) as [bs|e] eqn:He.
  - destruct (Z.leb_spec (len bs) 65525) as [Hl|Hl]; cbn [andb].
    + destruct (Z.leb_spec 0 index) as [H0|H0]; cbn [andb].
      * destruct (Z.leb_spec index 65535) as [H1|H1].
        -- apply build_layout; [lia|assumption|assumption].
        -- unfold build_tsl5_message. rewrite He. cbn [bind].
           pose proof (len_nonneg bs).
           rewrite (pack_H_ok (1 + 1 + 2 + 2 + 2 + 2 + len bs)) by lia.
           cbn [bind]. change (pack_B 0) with (Ok [0]).
           change (pack_H 0) with (Ok [0; 0]). cbn [bind].
           rewrite (pack_H_raises index) by lia. reflexivity.
      * unfold build_tsl5_message. rewrite He. cbn [bind].
        pose proof (len_nonneg bs).
        rewrite (pack_H_ok (1 + 1 + 2 + 2 + 2 + 2 + len bs)) by lia.
        cbn [bind]. change (pack_B 0) with (Ok [0]).
        change (pack_H 0) with (Ok [0; 0]). cbn [bind].
        rewrite (pack_H_raises index) by lia. reflexivity.
    + unfold build_tsl5_message. rewrite He. cbn [bind].
      rewrite (pack_H_raises (1 + 1 + 2 + 2 + 2 + 2 + len bs)) by lia.
      reflexivity.
  - unfold build_tsl5_message. rewrite He. cbn [bind].
    now rewrite (utf8_encode_raises _ _ He).
Qed.

(** Every frame the encoder returns decodes to its inputs, whatever
    follows it. *)
Lemma decode_built (index : Z) (program preview : bool) (text : str)
  (msg rest : bytes) :
  build_tsl5_message index program preview text = Ok msg ->
  decode_frame (msg ++ rest)
  = Some (index, control_word program preview, text, rest).
Proof.
  intros H.
  destruct (build_ok_inv _ _ _ _ _ H) as (Hi & bs & He & Hl).
  rewrite (build_layout _ program preview _ _ Hi He Hl) in H.
  injection H as <-.
  pose proof (decode_frame_layout 0 0 0 0 index
                (control_word program preview) bs rest) as D.
  rewrite (utf8_roundtrip _ _ He) in D. exact D.
Qed.

(** The fields no argument controls: version and flags are the zero
    bytes at offsets 2 and 3, screen is the zero word at offset 4; the
    word at offset 6 is the index; a frame is never shorter than its 12
    header bytes nor longer than 65537 bytes. *)
Theorem frame_fixed_fields (index : Z) (program preview : bool) (text : str)
  (msg : bytes) :
  build_tsl5_message index program preview text = Ok msg ->
  nth_error msg 2 = Some 0 /\
  nth_error msg 3 = Some 0 /\
  field_H 4 msg = Some 0 /\
  field_H 6 msg = Some index /\
  12 <= len msg <= 65537.
Proof.
  intros H.
  destruct (build_ok_inv _ _ _ _ _ H) as (Hi & bs & He & Hl).
  rewrite (build_layout _ program preview _ _ Hi He Hl) in H.
  injection H as <-. cbn [app nth_error]. unfold field_H. cbn [skipn].
  rewrite unpack_H_pack. repeat (split; [reflexivity|]).
  pose proof (len_nonneg bs). unfold len in *. cbn [List.length]. lia.
Qed.

Lemma frame_fixed_fields_witness :
  nth_error [15; 0; 0; 0; 0; 0; 1; 0; 3; 0; 5; 0; 67; 65; 77; 32; 49] 2
    = Some 0 /\
  nth_error [15; 0; 0; 0; 0; 0; 1; 0; 3; 0; 5; 0; 67; 65; 77; 32; 49] 3
    = Some 0 /\
  field_H 4 [15; 0; 0; 0; 0; 0; 1; 0; 3; 0; 5; 0; 67; 65; 77; 32; 49]
    = Some 0 /\
  field_H 6 [15; 0; 0; 0; 0; 0; 1; 0; 3; 0; 5; 0; 67; 65; 77; 32; 49]
    = Some 1 /\
  12 <= len [15; 0; 0; 0; 0; 0; 1; 0; 3; 0; 5; 0; 67; 65; 77; 32; 49]
     <= 65537.
Proof.
  apply (frame_fixed_fields 1 true false (lit "CAM 1")). reflexivity.
Defined.

(** The encoder is injective: a frame determines the index, both flags and
    the label it was built from. *)
Theorem build_injective (index index' : Z) (program preview program' preview' : bool)
  (text text' : str) (msg : bytes) :
  build_tsl5_message index program preview text = Ok msg ->
  build_tsl5_message index' program' preview' text' = Ok msg ->
  index = index' /\ program = program' /\ preview = preview' /\ text = text'.
Proof.
  intros H H'.
  pose proof (decode_built _ _ _ _ _ [] H) as D.
  rewrite (decode_built _ _ _ _ _ [] H') in D. injection D as Hi Hc Ht.
  destruct (control_word_flags program preview) as [P1 P2].
  destruct (control_word_flags program' preview') as [P1' P2'].
  rewrite <- Hc in P1, P2. repeat split; congruence.
Qed.

Lemma build_injective_witness :
  2 = 2 /\ false = false /\ true = true /\ lit "CAM 2" = lit "CAM 2".
Proof.
  apply (build_injective 2 2 false true false true (lit "CAM 2") (lit "CAM 2")
           [15; 0; 0; 0; 0; 0; 2; 0; 12; 0; 5; 0; 67; 65; 77; 32; 50]);
    reflexivity.
Defined.

Lemma encodable_encode_cp (c : Z) :
  encodable c -> exists e, encode_cp c = Some e /\ len e <= 4.
Proof.
  intros [Hr Hs]. unfold encode_cp. rewrite Hs.
  destruct (Z.ltb_spec c 0); [lia|].
  destruct (Z.ltb_spec c 0x80); [eexists; split; [reflexivity|vm_compute; discriminate]|].
  destruct (Z.ltb_spec c 0x800); [eexists; split; [reflexivity|vm_compute; discriminate]|].
  destruct (Z.ltb_spec c 0x10000); [eexists; split; [reflexivity|vm_compute; discriminate]|].
  destruct (Z.ltb_spec c 0x110000); [eexists; split; [reflexivity|vm_compute; discriminate]|].
  lia.
Qed.

Lemma encodable_utf8_encode (s : str) :
  Forall encodable s ->
  exists bs, utf8_encode s = Ok bs /\ len bs <= 4 * len s.
Proof.
  induction 1 as [|c s Hc Hs (bs & He & Hl)].
  - exists []. split; [reflexivity|]. vm_compute. discriminate.
  - destruct (encodable_encode_cp c Hc) as (e & Hec & Hel).
    exists (e ++ bs). cbn [utf8_encode]. rewrite Hec, He. cbn [bind].
    split; [reflexivity|]. rewrite len_app.
    change (c :: s) with ([c] ++ s). rewrite (len_app [c] s).
    change (len [c]) with 1. lia.
Qed.

(** A sufficient size: every label of at most 16381 code points, none a
    surrogate, is accepted with any 16-bit index, and its frame is at
    most 12 + 4 bytes per code point long. *)
Theorem build_accepts (index : Z) (program preview : bool) (text : str) :
  0 <= index <= 65535 ->
  Forall encodable text ->
  len text <= 16381 ->
  exists msg,
    build_tsl5_message index program preview text = Ok msg /\
    12 + len text <= len msg <= 12 + 4 * len text.
Proof.
  intros Hi Ht Hl.
  destruct (encodable_utf8_encode text Ht) as (bs & He & Hb).
  destruct (utf8_encode_len _ _ He) as [Hlo _].
  eexists. split; [apply build_layout; [assumption|eassumption|lia]|].
  unfold len in *. cbn [List.length app]. lia.
Qed.

Lemma build_accepts_witness :
  exists msg,
    build_tsl5_message 3 false false [0x43; 0xE9; 0x20AC; 0x1F600] = Ok msg /\
    12 + len [0x43; 0xE9; 0x20AC; 0x1F600] <= len msg
      <= 12 + 4 * len [0x43; 0xE9; 0x20AC; 0x1F600].
Proof.
  apply (build_accepts 3 false false [0x43; 0xE9; 0x20AC; 0x1F600]).
  - lia.
  - repeat constructor; vm_compute; congruence.
  - vm_compute. discriminate.
Defined.

Lemma decode_stream_built (n : nat) (index : Z) (program preview : bool)
  (text : str) (msg rest : bytes) :
  build_tsl5_message index program preview text = Ok msg ->
  decode_stream (S n) (msg ++ rest)
  = option_map (cons (index, control_word program preview, text))
               (decode_stream n rest).
Proof.
  intros H. pose proof (decode_built _ _ _ _ _ rest H) as D.
  destruct (build_ok_inv _ _ _ _ _ H) as (Hi & bs & He & Hl).
  rewrite (build_layout _ program preview _ _ Hi He Hl) in H.
  injection H as <-. cbn [app decode_stream] in *. now rewrite D.
Qed.

(** Frames written back to back are read back one by one: a receiver that
    delimits by the length field alone recovers every index, control word
    and label, in order. *)
Theorem stream_of_frames_decodes
  (items : list (Z * bool * bool * str)) (frames : list bytes) :
  Forall2 (fun item msg =>
             let '(index, program, preview, text) := item in
             build_tsl5_message index program preview text = Ok msg)
          items frames ->
  decode_stream (List.length frames) (List.concat frames)
  = Some (map (fun item =>
                 let '(index, program, preview, text) := item in
                 (index, control_word program preview, text)) items).
Proof.
  induction 1 as [|[[[index program] preview] text] msg items frames H _ IH].
  - reflexivity.
  - cbn [List.length List.concat map].
    rewrite (decode_stream_built _ _ _ _ _ _ _ H), IH. reflexivity.
Qed.

Lemma stream_of_frames_decodes_witness :
  decode_stream 2
    (List.concat [ [15; 0; 0; 0; 0; 0; 1; 0; 3; 0; 5; 0; 67; 65; 77; 32; 49];
                   [15; 0; 0; 0; 0; 0; 2; 0; 12; 0; 5; 0; 67; 65; 77; 32; 50] ])
  = Some [ (1, control_word true false, lit "CAM 1");
           (2, control_word false true, lit "CAM 2") ].
Proof.
  apply (stream_of_frames_decodes
           [ (1, true, false, lit "CAM 1"); (2, false, true, lit "CAM 2") ]
           [ [15; 0; 0; 0; 0; 0; 1; 0; 3; 0; 5; 0; 67; 65; 77; 32; 49];
             [15; 0; 0; 0; 0; 0; 2; 0; 12; 0; 5; 0; 67; 65; 77; 32; 50] ]).
  repeat constructor.
Defined.

Lemma cursor_after_from (n : nat) :
  forall cur : Z,
    0 <= cur < len SOURCES ->
    cursor_after n cur = Ok ((cur + Z.of_nat n) mod len SOURCES).
Proof.
  change (len SOURCES) with 4.
  induction n as [|n IH]; intros cur H.
  - cbn [cursor_after]. f_equal. rewrite Z.add_0_r, Z.mod_small; lia.
  - destruct (tick_in_catalog cur H)
      as (sent & Ht & _ & _ & _ & _ & _ & _ & Hr & _).
    change (len SOURCES) with 4 in Ht, Hr.
    cbn [cursor_after]. rewrite Ht. cbn [bind snd]. rewrite (IH _ Hr).
    f_equal. rewrite Zplus_mod_idemp_l. f_equal. lia.
Qed.

Lemma cursor_after_initial (n : nat) :
  cursor_after n initial_cursor = Ok (Z.of_nat n mod len SOURCES).
Proof.
  rewrite cursor_after_from by (vm_compute; split; congruence).
  reflexivity.
Qed.


(** In every pass the program source and the preview source differ, so no
    frame carries both tallies (control 0x000F is never sent), and the two
    other sources are sent with control 0. *)
Theorem tick_tallies_exclusive (n : nat) :
  exists cur sent next,
    cursor_after n initial_cursor = Ok cur /\
    tick cur = Ok (sent, next) /\
    Forall (fun t => is_program t && is_preview t = false /\
                     field_H 8 (frame t) <> Some 0x000F) sent /\
    List.length
      (filter (fun t => match field_H 8 (frame t) with
                        | Some 0 => true
                        | _ => false
                        end) sent) = 2%nat.
Proof.
  exists (Z.of_nat n mod len SOURCES).
  pose proof (cursor_after_initial n) as Hc.
  change (len SOURCES) with 4 in *.
  assert (H : 0 <= Z.of_nat n mod 4 < 4) by (apply Z.mod_pos_bound; lia).
  assert (C : Z.of_nat n mod 4 = 0 \/ Z.of_nat n mod 4 = 1 \/
              Z.of_nat n mod 4 = 2 \/ Z.of_nat n mod 4 = 3) by lia.
  revert Hc. destruct C as [-> | [-> | [-> | ->]]]; intros Hc;
    do 2 eexists; (split; [exact Hc|]);
    (split; [vm_compute; reflexivity|]);
    (split; [repeat constructor; vm_compute; congruence|reflexivity]).
Qed.


(** What one pass writes, read back as a stream: four frames, the catalog
    entries in order with the control words of the flags computed for
    them. *)
Theorem tick_stream_decodes (n : nat) :
  exists cur sent next decoded,
    cursor_after n initial_cursor = Ok cur /\
    tick cur = Ok (sent, next) /\
    decode_stream (List.length SOURCES) (tick_stream sent) = Some decoded /\
    map (fun d => (fst (fst d), snd d)) decoded = SOURCES /\
    map (fun d => snd (fst d)) decoded
    = map (fun t => control_word (is_program t) (is_preview t)) sent.
Proof.
  exists (Z.of_nat n mod len SOURCES).
  pose proof (cursor_after_initial n) as Hc.
  change (len SOURCES) with 4 in *.
  assert (H : 0 <= Z.of_nat n mod 4 < 4) by (apply Z.mod_pos_bound; lia).
  assert (C : Z.of_nat n mod 4 = 0 \/ Z.of_nat n mod 4 = 1 \/
              Z.of_nat n mod 4 = 2 \/ Z.of_nat n mod 4 = 3) by lia.
  revert Hc. destruct C as [-> | [-> | [-> | ->]]]; intros Hc;
    do 3 eexists; (split; [exact Hc|]);
    (split; [vm_compute; reflexivity|]);
    (split; [vm_compute; reflexivity|split; reflexivity]).
Qed.

(** * Further properties of the broadcast server *)

(** For any client list, duplicates included, [send_command] run on its
    own (no other thread changing the list meanwhile) returns normally.
    The [try] body of a peer raises when the command cannot be encoded,
    when the send raises, or when the send returned and stdout cannot
    encode the command for the line printed after it; afterwards such a
    peer is not listed any more and every other peer is listed as often
    as before; the listening socket, the running flag and the closed
    sockets are untouched. *)
Theorem send_command_drops_failing (broken : sock -> bool)
  (stdout_encodes : Z -> bool) (command : str) (st : State) :
  exists st',
    send_command broken stdout_encodes command st = Ok st' /\
    (forall y, try_fails broken stdout_encodes command st y
               = match utf8_encode (command ++ CRLF) with
                 | Ok _ => send_raises broken st y
                           || print_raises stdout_encodes command
                 | Raise _ => true
                 end) /\
    (forall y, count_occ Nat.eq_dec (clients st') y
               = if try_fails broken stdout_encodes command st y then 0%nat
                 else count_occ Nat.eq_dec (clients st) y) /\
    (forall y, In y (clients st')
               <-> In y (clients st)
                   /\ try_fails broken stdout_encodes command st y = false) /\
    server_socket st' = server_socket st /\
    running st' = running st /\
    closed st' = closed st.
Proof.
  destruct (send_command_total broken stdout_encodes command st)
    as (st' & Hs & _ & Hcl & Hss & Hr & Hcount).
  exists st'. split; [assumption|].
  split; [intros y; apply try_fails_cases|].
  split; [assumption|]. split; [|auto].
  intros y. rewrite (count_occ_In Nat.eq_dec (clients st')), Hcount.
  rewrite (count_occ_In Nat.eq_dec (clients st)).
  destruct (try_fails broken stdout_encodes command st y);
    intuition (try lia; congruence).
Qed.



(** On a duplicate-free client list, [send_command] run on its own (no
    other thread changing the list meanwhile), with any number of failing
    peers: the list afterwards is the peers whose [try] body did not
    raise, in their old order; a listed peer has been handed the encoded
    line exactly once more when its send returned, even if the line
    printed after the send then raised and the peer was dropped, and
    nobody else has been handed anything. *)
Theorem broadcast_keeps_healthy_peers (broken : sock -> bool)
  (stdout_encodes : Z -> bool) (command : str) (st : State) :
  NoDup (clients st) ->
  exists st',
    send_command broken stdout_encodes command st = Ok st' /\
    clients st'
    = filter (fun c => negb (try_fails broken stdout_encodes command st c))
             (clients st) /\
    (forall c, try_fails broken stdout_encodes command st c
               = match utf8_encode (command ++ CRLF) with
                 | Ok _ => send_raises broken st c
                           || print_raises stdout_encodes command
                 | Raise _ => true
                 end) /\
    NoDup (clients st') /\
    forall c,
      received c (out st')
      = received c (out st)
        ++ (if existsb (Nat.eqb c) (clients st)
               && negb (send_raises broken st c)
            then sent_data command else []).
Proof.
  intros Hnd.
  destruct (send_command_total broken stdout_encodes command st)
    as (st' & Hs & Ho & _).
  exists st'. split; [assumption|].
  pose proof (send_command_nodup _ _ _ _ _ Hnd Hs) as Hc.
  split; [assumption|]. split; [intros c; apply try_fails_cases|].
  split; [rewrite Hc; now apply NoDup_filter|].
  intros c. rewrite Ho, received_app. f_equal.
  destruct (clients st) as [|c0 l0] eqn:E; [reflexivity|].
  rewrite <- E in *. now apply received_flat_map.
Qed.

Lemma broadcast_keeps_healthy_peers_witness :
  exists st',
    send_command (fun c => Nat.even c) (fun _ => true) (lit "SALVO 1")
      (mkState (Some 0%nat) [1; 2; 3; 4]%nat true [] []) = Ok st' /\
    clients st' = [1; 3]%nat /\
    received 3%nat (out st') = [lit "SALVO 1" ++ CRLF] /\
    received 4%nat (out st') = [].
Proof.
  destruct (broadcast_keeps_healthy_peers (fun c => Nat.even c)
              (fun _ => true) (lit "SALVO 1")
              (mkState (Some 0%nat) [1; 2; 3; 4]%nat true [] []))
    as (st' & Hs & Hc & _ & _ & Hr).
  - repeat constructor; cbn [In]; intuition discriminate.
  - exists st'. split; [assumption|]. split; [exact Hc|].
    split; [exact (Hr 3%nat)|exact (Hr 4%nat)].
Defined.

Lemma receive_exit_nodup (c : sock) (st st' : State) (n : Z) :
  NoDup (clients st) ->
  receive_exit c st = Ok (st', n) ->
  clients st' = filter (fun y => negb (Nat.eqb y c)) (clients st) /\
  closed st' = closed st.
Proof.
  intros Hnd. unfold receive_exit.
  destruct (existsb (Nat.eqb c) (clients st)) eqn:Ex.
  - apply existsb_eqb_In in Ex. rewrite (list_remove_nodup _ _ Hnd Ex).
    cbn [bind]. intros [= <- _]. split; reflexivity.
  - apply not_true_iff_false in Ex. rewrite existsb_eqb_In in Ex.
    cbn [bind]. intros [= <- _]. split; [|reflexivity].
    now rewrite filter_neq_absent.
Qed.

(** The end of a reader thread never raises: a listed peer loses one
    entry, an unlisted one (already dropped by a failed write) leaves the
    state as it is; the total printed is the new length. *)
Theorem receive_exit_removes (c : sock) (st : State) :
  exists st',
    receive_exit c st = Ok (st', len (clients st')) /\
    (forall y, count_occ Nat.eq_dec (clients st') y
               = (count_occ Nat.eq_dec (clients st) y
                  - (if Nat.eq_dec c y then 1 else 0))%nat) /\
    (~ In c (clients st) -> st' = st) /\
    (NoDup (clients st) ->
     clients st' = filter (fun y => negb (Nat.eqb y c)) (clients st) /\
     ~ In c (clients st')) /\
    out st' = out st /\
    closed st' = closed st /\
    server_socket st' = server_socket st /\
    running st' = running st.
Proof.
  unfold receive_exit.
  destruct (existsb (Nat.eqb c) (clients st)) eqn:Ex.
  - apply existsb_eqb_In in Ex.
    destruct (list_remove_count _ _ Ex) as (l & Hl & Hcount).
    rewrite Hl. cbn [bind]. eexists. split; [reflexivity|].
    cbn [set_clients clients out closed server_socket running].
    split; [exact Hcount|]. split; [contradiction|].
    split; [|auto]. intros Hnd.
    rewrite (list_remove_nodup _ _ Hnd Ex) in Hl. injection Hl as <-.
    split; [reflexivity|]. rewrite filter_In. intros [_ H].
    now rewrite Nat.eqb_refl in H.
  - apply not_true_iff_false in Ex. rewrite existsb_eqb_In in Ex.
    cbn [bind]. exists st. split; [reflexivity|]. split.
    { intros y. destruct (Nat.eq_dec c y) as [<-|_]; [|lia].
      apply (count_occ_not_In Nat.eq_dec) in Ex. lia. }
    split; [reflexivity|]. split; [|auto]. intros _.
    split; [|assumption]. symmetry. apply filter_all_true_in.
    intros y Hy. destruct (Nat.eqb_spec y c) as [->|_];
      [contradiction|reflexivity].
Qed.

Lemma list_remove_last (c : sock) (l : list sock) :
  ~ In c l -> list_remove c (l ++ [c]) = Ok l.
Proof.
  induction l as [|y l IH]; intros H; cbn [app list_remove].
  - now rewrite Nat.eqb_refl.
  - destruct (Nat.eqb_spec y c) as [->|_]; [exfalso; apply H; now left|].
    rewrite IH by (intros Hin; apply H; now right). reflexivity.
Qed.

(** Connect then disconnect: a new peer that is accepted and whose reader
    then ends leaves the simulator exactly as it was; the totals printed
    are the old length plus one, then the old length. *)
Theorem accept_then_exit (c : sock) (st : State) :
  ~ In c (clients st) ->
  snd (accept_connection c st) = len (clients st) + 1 /\
  receive_exit c (fst (accept_connection c st)) = Ok (st, len (clients st)).
Proof.
  intros H. unfold accept_connection. cbn [fst snd set_clients clients].
  split; [rewrite len_app; reflexivity|].
  unfold receive_exit. cbn [set_clients clients].
  rewrite (proj2 (existsb_eqb_In c (clients st ++ [c])))
    by (apply in_or_app; right; now left).
  rewrite (list_remove_last _ _ H). cbn [bind set_clients clients
    server_socket running closed out]. now destruct st.
Qed.

Lemma accept_then_exit_witness :
  snd (accept_connection 5%nat
         (mkState (Some 0%nat) [1; 2]%nat true [] [])) = len [1; 2]%nat + 1 /\
  receive_exit 5%nat
    (fst (accept_connection 5%nat
            (mkState (Some 0%nat) [1; 2]%nat true [] [])))
  = Ok (mkState (Some 0%nat) [1; 2]%nat true [] [], len [1; 2]%nat).
Proof.
  apply (accept_then_exit 5%nat (mkState (Some 0%nat) [1; 2]%nat true [] [])).
  cbn [clients In]. intuition discriminate.
Defined.

Lemma step_nodup (st st' : State) :
  step st st' -> NoDup (clients st) -> NoDup (clients st').
Proof.
  intros Hs Hnd. destruct Hs as [s st|c st Hc|c st st' n Hr|b so cmd st st' Hs|st].
  - exact Hnd.
  - cbn [accept_connection fst set_clients clients].
    apply NoDup_app; [assumption|repeat constructor; intros []|].
    intros x Hx [<-|[]]. contradiction.
  - destruct (receive_exit_nodup _ _ _ _ Hnd Hr) as [-> _].
    now apply NoDup_filter.
  - rewrite (send_command_nodup _ _ _ _ _ Hnd Hs). now apply NoDup_filter.
  - unfold stop, main_finally, menu_quit.
    destruct (server_socket (set_running false (emit PrintShuttingDown st)));
      exact Hnd.
Qed.

(** The connection set is a set: in every state the simulator can reach
    from [__init__] by starting, accepting new sockets, reader threads
    ending, broadcasts and stopping, no peer is listed twice. *)
Theorem clients_never_duplicated (st : State) :
  reachable st -> NoDup (clients st).
Proof.
  induction 1 as [|st st' _ IH Hs]; [constructor|].
  now apply (step_nodup st st').
Qed.

Lemma clients_never_duplicated_witness :
  NoDup (clients (fst (accept_connection 2%nat
                         (fst (accept_connection 1%nat
                                 (start_listen 0%nat init)))))).
Proof.
  apply clients_never_duplicated.
  eapply reachable_step; [eapply reachable_step;
                          [eapply reachable_step; [apply reachable_init|]|]|].
  - apply (step_start 0%nat).
  - apply (step_accept 1%nat). intros [].
  - apply (step_accept 2%nat). cbn. intuition discriminate.
Defined.

(** The race the copy of the list does not cover: the list is copied, the
    reader thread of a listed peer ends and removes it, and the [try]
    body of that peer then raises (its send fails, or the line printed
    after the send cannot be encoded); the handler's
    [self.clients.remove] raises [ValueError], which leaves
    [send_command]. *)
Theorem reader_exit_during_broadcast (broken : sock -> bool)
  (stdout_encodes : Z -> bool) (command : str) (st : State) (c : sock) :
  NoDup (clients st) ->
  In c (clients st) ->
  try_fails broken stdout_encodes command st c = true ->
  exists st1 n,
    receive_exit c st = Ok (st1, n) /\
    for_clients broken stdout_encodes (clients st) command (command ++ CRLF)
      st1
    = Raise ValueError.
Proof.
  intros Hnd Hin Hw.
  destruct (receive_exit c st) as [[st1 n]|e] eqn:Hr.
  - destruct (receive_exit_nodup _ _ _ _ Hnd Hr) as [Hc Hcl].
    exists st1, n. split; [reflexivity|].
    apply (for_clients_vanished broken stdout_encodes command _ st1 c Hin).
    + rewrite Hc, filter_In. intros [_ H]. now rewrite Nat.eqb_refl in H.
    + now rewrite (try_fails_closed broken stdout_encodes command st st1 c Hcl).
  - exfalso. unfold receive_exit in Hr.
    rewrite (proj2 (existsb_eqb_In c (clients st)) Hin) in Hr.
    rewrite (list_remove_nodup _ _ Hnd Hin) in Hr. discriminate.
Qed.

Lemma reader_exit_during_broadcast_witness :
  exists st1 n,
    receive_exit 2%nat (mkState (Some 0%nat) [1; 2]%nat true [] [])
    = Ok (st1, n) /\
    for_clients (fun c => Nat.eqb c 2) (fun _ => true) [1; 2]%nat
      (lit "MECUT ME:1")
      (lit "MECUT ME:1" ++ CRLF) st1
    = Raise ValueError.
Proof.
  apply (reader_exit_during_broadcast (fun c => Nat.eqb c 2) (fun _ => true)
           (lit "MECUT ME:1")
           (mkState (Some 0%nat) [1; 2]%nat true [] []) 2%nat).
  - repeat constructor; cbn [In]; intuition discriminate.
  - cbn [clients In]. auto.
  - reflexivity.
Defined.

(** ** The test sequences *)

(** Cancelled anywhere but between a send and the assignment that
    follows it (in the sleep, or at the head of a later iteration), the
    toggle test leaves the off line as the last one on the wire. *)
Theorem toggle_cancelled_outside_window (broken : sock -> bool)
  (stdout_encodes : Z -> bool) (peer : sock)
  (n : nat) (p : cancel_point) (st : State) :
  broken peer = false ->
  single peer st ->
  p = DuringSleep \/ (p = BeforeSend /\ n <> O) ->
  exists st',
    _run_keyer_toggle_test broken stdout_encodes n p st = Ok st' /\
    last_written (out st') = Some off_line.
Proof.
  intros Hb Hs Hp. unfold _run_keyer_toggle_test.
  destruct (toggle_loop_single broken stdout_encodes peer Hb p n false st Hs)
    as (st' & H1 & H2).
  exists st'. split; [assumption|]. rewrite H2.
  destruct Hp as [->|[-> Hn]]; [reflexivity|].
  cbn [xorb]. destruct (Nat.odd n); [reflexivity|].
  destruct n; [congruence|reflexivity].
Qed.

Lemma toggle_cancelled_outside_window_witness :
  exists st',
    _run_keyer_toggle_test (fun _ => false) (fun _ => true) 3 BeforeSend
      (mkState (Some 0%nat) [1%nat] true [] []) = Ok st' /\
    last_written (out st') = Some off_line.
Proof.
  apply (toggle_cancelled_outside_window (fun _ => false) (fun _ => true) 1%nat 3 BeforeSend
           (mkState (Some 0%nat) [1%nat] true [] [])).
  - reflexivity.
  - split; reflexivity.
  - right. split; [reflexivity|discriminate].
Defined.

(** Cancelled between a send and the assignment of the flag, after [n]
    whole iterations: the on line is the last one on the wire when [n] is
    even (the keyer stays on), the off line, sent twice, when [n] is
    odd. *)
Theorem toggle_cancelled_in_window (broken : sock -> bool)
  (stdout_encodes : Z -> bool) (peer : sock)
  (n : nat) (st : State) :
  broken peer = false ->
  single peer st ->
  exists st',
    _run_keyer_toggle_test broken stdout_encodes n AfterSend st = Ok st' /\
    last_written (out st')
    = Some (if Nat.odd n then off_line else on_line).
Proof.
  intros Hb Hs. unfold _run_keyer_toggle_test.
  destruct (toggle_loop_single broken stdout_encodes peer Hb AfterSend n false st Hs)
    as (st' & H1 & H2).
  exists st'. split; [assumption|]. rewrite H2. reflexivity.
Qed.

Lemma toggle_cancelled_in_window_witness :
  exists st',
    _run_keyer_toggle_test (fun _ => false) (fun _ => true) 2 AfterSend
      (mkState (Some 0%nat) [1%nat] true [] []) = Ok st' /\
    last_written (out st') = Some (if Nat.odd 2 then off_line else on_line).
Proof.
  apply (toggle_cancelled_in_window (fun _ => false) (fun _ => true) 1%nat 2
           (mkState (Some 0%nat) [1%nat] true [] [])).
  - reflexivity.
  - split; reflexivity.
Defined.

Lemma send_command_no_clients (broken : sock -> bool)
  (stdout_encodes : Z -> bool) (command : str)
  (st : State) :
  clients st = [] -> send_command broken stdout_encodes command st = Ok (emit PrintWarn st).
Proof. intros H. unfold send_command. now rewrite H. Qed.

Lemma toggle_loop_no_clients (broken : sock -> bool)
  (stdout_encodes : Z -> bool) (p : cancel_point)
  (n : nat) :
  forall (keyer_on : bool) (st : State),
    clients st = [] ->
    exists st',
      toggle_loop broken stdout_encodes n p keyer_on st = Ok st' /\
      writes (out st') = writes (out st) /\
      clients st' = [].
Proof.
  assert (W : forall st o, writes (out (emit o st)) = writes (out st ++ [o]))
    by reflexivity.
  assert (S1 : forall command st,
             clients st = [] ->
             exists st1, send_command broken stdout_encodes command st = Ok st1 /\
                         writes (out st1) = writes (out st) /\
                         clients st1 = []).
  { intros command st H. exists (emit PrintWarn st).
    split; [now apply send_command_no_clients|].
    split; [|assumption]. rewrite W, writes_app. apply app_nil_r. }
  assert (I : forall keyer_on st,
             clients st = [] ->
             exists st1, on_interrupt broken stdout_encodes keyer_on st = Ok st1 /\
                         writes (out st1) = writes (out st) /\
                         clients st1 = []).
  { intros keyer_on st H. unfold on_interrupt. destruct keyer_on.
    - destruct (S1 KEYCUT_OFF st H) as (st1 & -> & Hw & Hc). cbn [bind].
      eexists. split; [reflexivity|]. rewrite W, writes_app, app_nil_r.
      split; assumption.
    - cbn [bind]. eexists. split; [reflexivity|].
      rewrite W, writes_app, app_nil_r. split; [reflexivity|assumption]. }
  induction n as [|n IH]; intros keyer_on st H; cbn [toggle_loop]; cbv zeta.
  - destruct p.
    + now apply I.
    + destruct (S1 (if keyer_on then KEYCUT_OFF else KEYCUT_ON) st H)
        as (st1 & -> & Hw & Hc). cbn [bind].
      destruct (I keyer_on st1 Hc) as (st2 & -> & Hw2 & Hc2).
      exists st2. split; [reflexivity|]. split; congruence.
    + destruct (S1 (if keyer_on then KEYCUT_OFF else KEYCUT_ON) st H)
        as (st1 & -> & Hw & Hc). cbn [bind].
      destruct (I (negb keyer_on) st1 Hc) as (st2 & -> & Hw2 & Hc2).
      exists st2. split; [reflexivity|]. split; congruence.
  - destruct (S1 (if keyer_on then KEYCUT_OFF else KEYCUT_ON) st H)
      as (st1 & -> & Hw & Hc). cbn [bind].
    destruct (IH (negb keyer_on) st1 Hc) as (st2 & -> & Hw2 & Hc2).
    exists st2. split; [reflexivity|]. split; congruence.
Qed.

(** With nobody connected the toggle test writes nothing, however long it
    runs and wherever it is cancelled: every call only prints the
    no-clients warning. *)
Theorem toggle_without_peers (broken : sock -> bool)
  (stdout_encodes : Z -> bool) (n : nat)
  (p : cancel_point) (st : State) :
  clients st = [] ->
  exists st',
    _run_keyer_toggle_test broken stdout_encodes n p st = Ok st' /\
    writes (out st') = writes (out st) /\
    clients st' = [].
Proof. intros H. now apply toggle_loop_no_clients. Qed.

Lemma toggle_without_peers_witness :
  exists st',
    _run_keyer_toggle_test (fun _ => false) (fun _ => true) 5 DuringSleep init = Ok st' /\
    writes (out st') = writes (out init) /\
    clients st' = [].
Proof.
  apply (toggle_without_peers (fun _ => false) (fun _ => true) 5 DuringSleep init).
  reflexivity.
Defined.

Lemma send_command_healthy (broken : sock -> bool)
  (stdout_encodes : Z -> bool) (command : str) (st : State) (c : sock)
  (data : bytes) :
  NoDup (clients st) ->
  In c (clients st) ->
  send_raises broken st c = false ->
  utf8_encode (command ++ CRLF) = Ok data ->
  print_raises stdout_encodes command = false ->
  exists st',
    send_command broken stdout_encodes command st = Ok st' /\
    received c (out st') = received c (out st) ++ [data] /\
    NoDup (clients st') /\
    In c (clients st') /\
    closed st' = closed st.
Proof.
  intros Hnd Hin Hr He Hp.
  assert (Hw : try_fails broken stdout_encodes command st c = false)
    by (now rewrite try_fails_cases, He, Hr, Hp).
  destruct (send_command_total broken stdout_encodes command st)
    as (st' & Hs & Ho & Hcl & _).
  pose proof (send_command_nodup _ _ _ _ _ Hnd Hs) as Hc.
  exists st'. split; [assumption|]. split; [|split; [|split]].
  - rewrite Ho, received_app. f_equal.
    destruct (clients st) as [|c0 l0] eqn:E; [destruct Hin|].
    rewrite <- E in *. rewrite received_flat_map by assumption.
    rewrite (proj2 (existsb_eqb_In c (clients st)) Hin), Hr.
    unfold sent_data. now rewrite He.
  - rewrite Hc. now apply NoDup_filter.
  - rewrite Hc, filter_In, Hw. split; [assumption|reflexivity].
  - assumption.
Qed.

Lemma send_commands_healthy (broken : nat -> sock -> bool)
  (stdout_encodes : Z -> bool) (c : sock) (commands : list str) :
  Forall (fun command : str =>
            utf8_encode (command ++ CRLF) = Ok (command ++ CRLF) /\
            print_raises stdout_encodes command = false)
         commands ->
  forall (i : nat) (st : State),
    NoDup (clients st) ->
    In c (clients st) ->
    (forall j, send_raises (broken j) st c = false) ->
    exists st',
      send_commands broken stdout_encodes i commands st = Ok st' /\
      received c (out st')
      = received c (out st) ++ map (fun command => command ++ CRLF) commands /\
      In c (clients st').
Proof.
  induction 1 as [|command commands [He Hp] _ IH]; intros i st Hnd Hin Hr.
  - exists st. cbn [send_commands map]. rewrite app_nil_r. auto.
  - destruct (send_command_healthy (broken i) stdout_encodes _ _ _ _
                Hnd Hin (Hr i) He Hp)
      as (st1 & Hs & Hrc & Hnd1 & Hin1 & Hcl1).
    destruct (IH (S i) st1 Hnd1 Hin1) as (st' & Hs' & Hrc' & Hin').
    { intros j. specialize (Hr j). unfold send_raises in *.
      now rewrite Hcl1. }
    exists st'. cbn [send_commands map]. rewrite Hs. cbn [bind].
    split; [assumption|]. split; [|assumption].
    rewrite Hrc', Hrc, <- app_assoc. reflexivity.
Qed.

Lemma production_ascii (stdout_encodes : Z -> bool) :
  Forall (fun command : str =>
            utf8_encode (command ++ CRLF) = Ok (command ++ CRLF) /\
            print_raises stdout_encodes command = false)
         PRODUCTION.
Proof. repeat constructor. Qed.

Lemma Forall_prefix {A : Type} (P : A -> Prop) (k : nat) (l : list A) :
  Forall P l -> Forall P (firstn k l).
Proof.
  intros H. revert k. induction H as [|x l Hx _ IH]; intros [|k];
    cbn [firstn]; constructor; auto.
Qed.

(** The production sequence as one peer sees it, when no other thread
    changes the client list while it runs: on a duplicate-free list, a
    peer whose socket accepts the write in each of the calls receives the
    thirteen commands in order, each followed by CR LF, whichever writes
    to the other peers fail and in whichever call; interrupted after [k]
    commands it has received the first [k] and nothing more, since the
    handler sends nothing (a keyer raised by the sequence stays
    raised). *)
Theorem production_sequence_delivered (broken : nat -> sock -> bool)
  (stdout_encodes : Z -> bool) (interrupt : option nat) (st : State)
  (c : sock) :
  NoDup (clients st) ->
  In c (clients st) ->
  (forall j, send_raises (broken j) st c = false) ->
  exists st',
    _run_production_sequence broken stdout_encodes interrupt st
    = Ok (st', match interrupt with
               | None => Complete
               | Some _ => StoppedByUser
               end) /\
    received c (out st')
    = received c (out st)
      ++ map (fun command => command ++ CRLF)
             (match interrupt with
              | None => PRODUCTION
              | Some k => firstn k PRODUCTION
              end) /\
    In c (clients st').
Proof.
  intros Hnd Hin Hr. unfold _run_production_sequence.
  destruct interrupt as [k|].
  - destruct (send_commands_healthy broken stdout_encodes c _
                (@Forall_prefix str _ k _ (production_ascii stdout_encodes))
                0%nat st Hnd Hin Hr)
      as (st' & -> & H1 & H2).
    exists st'. cbn [bind]. auto.
  - destruct (send_commands_healthy broken stdout_encodes c _
                (production_ascii stdout_encodes) 0%nat st Hnd Hin Hr)
      as (st' & -> & H1 & H2).
    exists st'. cbn [bind]. auto.
Qed.

Lemma production_sequence_delivered_witness :
  exists st',
    _run_production_sequence
      (fun j c => Nat.eqb c 2 && Nat.leb 2 j) (fun _ => false) (Some 4%nat)
      (mkState (Some 0%nat) [1; 2]%nat true [] [])
    = Ok (st', StoppedByUser) /\
    received 1%nat (out st')
    = received 1%nat (@nil output)
      ++ map (fun command => command ++ CRLF) (firstn 4 PRODUCTION) /\
    In 1%nat (clients st').
Proof.
  apply (production_sequence_delivered
           (fun j c => Nat.eqb c 2 && Nat.leb 2 j) (fun _ => false)
           (Some 4%nat)
           (mkState (Some 0%nat) [1; 2]%nat true [] []) 1%nat).
  - repeat constructor; cbn [In]; intuition discriminate.
  - cbn [clients In]. auto.
  - intros j. reflexivity.
Defined.

Lemma send_command_incl (broken : sock -> bool) (stdout_encodes : Z -> bool)
  (command : str) (st st' : State) :
  send_command broken stdout_encodes command st = Ok st' ->
  incl (clients st') (clients st) /\
  closed st' = closed st /\
  server_socket st' = server_socket st /\
  running st' = running st.
Proof.
  intros Hs.
  destruct (send_command_total broken stdout_encodes command st)
    as (st1 & Hs1 & _ & Hcl & Hss & Hr & Hcount).
  rewrite Hs in Hs1. injection Hs1 as <-.
  split; [|auto]. intros y Hy. apply (count_occ_In Nat.eq_dec) in Hy.
  rewrite Hcount in Hy. apply (count_occ_In Nat.eq_dec).
  destruct (try_fails broken stdout_encodes command st y); lia.
Qed.

Lemma send_commands_total (broken : nat -> sock -> bool)
  (stdout_encodes : Z -> bool) (commands : list str) :
  forall (i : nat) (st : State),
    exists st',
      send_commands broken stdout_encodes i commands st = Ok st' /\
      incl (clients st') (clients st) /\
      closed st' = closed st /\
      server_socket st' = server_socket st /\
      running st' = running st.
Proof.
  induction commands as [|command commands IH]; intros i st.
  - exists st. cbn [send_commands]. split; [reflexivity|].
    split; [apply incl_refl|auto].
  - destruct (send_command_total (broken i) stdout_encodes command st)
      as (st1 & Hs & _).
    destruct (send_command_incl _ _ _ _ _ Hs) as (Hi1 & Hcl & Hss & Hr).
    destruct (IH (S i) st1) as (st' & Hs' & Hi & Hcl' & Hss' & Hr').
    exists st'. cbn [send_commands]. rewrite Hs. cbn [bind].
    split; [assumption|]. split; [|repeat split; congruence].
    eapply incl_tran; eassumption.
Qed.

(** Run on its own (no other thread changing the client list while it
    runs), the production sequence never ends in an exception and never
    stops the server: for any client list, whichever writes fail in
    whichever call and whatever stdout can encode, it returns, complete or
    stopped by the user, with no peer added and the listening socket, the
    running flag and the closed sockets as before. *)
Theorem production_sequence_returns (broken : nat -> sock -> bool)
  (stdout_encodes : Z -> bool) (interrupt : option nat) (st : State) :
  exists st',
    _run_production_sequence broken stdout_encodes interrupt st
    = Ok (st', match interrupt with
               | None => Complete
               | Some _ => StoppedByUser
               end) /\
    incl (clients st') (clients st) /\
    closed st' = closed st /\
    server_socket st' = server_socket st /\
    running st' = running st.
Proof.
  unfold _run_production_sequence. destruct interrupt as [k|].
  - destruct (send_commands_total broken stdout_encodes
                (firstn k PRODUCTION) 0%nat st)
      as (st' & -> & H). exists st'. cbn [bind]. auto.
  - destruct (send_commands_total broken stdout_encodes PRODUCTION 0%nat st)
      as (st' & -> & H). exists st'. cbn [bind]. auto.
Qed.

(** ** The interactive menu *)

Section MenuFacts.

Variable isspace : Z -> bool.
Variable lower : str -> str.

Lemma lstrip_idem (s : str) : lstrip isspace (lstrip isspace s) = lstrip isspace s.
Proof.
  induction s as [|c s IH]; [reflexivity|]. cbn [lstrip].
  destruct (isspace c) eqn:E; [assumption|]. cbn [lstrip]. now rewrite E.
Qed.

Lemma lstrip_head (s : str) :
  lstrip isspace s = [] \/
  exists c t, lstrip isspace s = c :: t /\ isspace c = false.
Proof.
  induction s as [|c s IH]; [now left|]. cbn [lstrip].
  destruct (isspace c) eqn:E; [assumption|]. right. eauto.
Qed.

Lemma lstrip_snoc (l : str) (c : Z) :
  isspace c = false -> exists v, lstrip isspace (l ++ [c]) = v ++ [c].
Proof.
  intros Hc. induction l as [|x l IH]; cbn [app lstrip].
  - rewrite Hc. now exists [].
  - destruct (isspace x); [assumption|]. now exists (x :: l).
Qed.

Lemma lstrip_blank (s : str) :
  Forall (fun c => isspace c = true) s -> lstrip isspace s = [].
Proof.
  induction 1 as [|c s Hc _ IH]; [reflexivity|]. cbn [lstrip]. now rewrite Hc.
Qed.

Lemma strip_blank (s : str) :
  Forall (fun c => isspace c = true) s -> strip isspace s = [].
Proof. intros H. unfold strip. now rewrite (lstrip_blank s H). Qed.

Lemma strip_idem (s : str) :
  strip isspace (strip isspace s) = strip isspace s.
Proof.
  unfold strip. destruct (lstrip_head s) as [->|(c & t & -> & Hc)];
    [reflexivity|].
  assert (E : lstrip isspace (rstrip isspace (c :: t)) = rstrip isspace (c :: t)).
  { unfold rstrip. cbn [rev].
    destruct (lstrip_snoc (rev t) c Hc) as (v & ->).
    rewrite rev_app_distr. cbn [rev app lstrip]. now rewrite Hc. }
  rewrite E. unfold rstrip. now rewrite rev_involutive, lstrip_idem.
Qed.

Lemma ask_strip (answer default : str) :
  ask isspace (strip isspace answer) default = ask isspace answer default.
Proof. unfold ask. now rewrite strip_idem. Qed.

Lemma ask_blank (answer default : str) :
  Forall (fun c => isspace c = true) answer ->
  ask isspace answer default = default.
Proof. intros H. unfold ask. now rewrite (strip_blank _ H). Qed.

(** Blank answers stand for the defaults: when the operator only presses
    return (or types white space) at every prompt, entries 1 to 9 send
    the commands for ME 1, keyer 1, source 1, level vid, destination 1 and
    salvo 1, entries 4 and 5 being the on and off commands of the toggle
    test, and the custom entry sends nothing. *)
Theorem menu_blank_answers (raw : str) (answers : nat -> str) :
  (forall i, Forall (fun c => isspace c = true) (answers i)) ->
  let choice := lower (strip isspace raw) in
  (choice = lit "1" ->
   menu_action isspace lower raw answers = DoSend (lit "MECUT ME:1")) /\
  (choice = lit "2" ->
   menu_action isspace lower raw answers = DoSend (lit "MEAUTO ME:1")) /\
  (choice = lit "3" ->
   menu_action isspace lower raw answers = DoSend (lit "SELECT PGM:1:IN:1")) /\
  (choice = lit "4" ->
   menu_action isspace lower raw answers = DoSend KEYCUT_ON) /\
  (choice = lit "5" ->
   menu_action isspace lower raw answers = DoSend KEYCUT_OFF) /\
  (choice = lit "6" ->
   menu_action isspace lower raw answers = DoSend (lit "KEYAUTO ME:1:1")) /\
  (choice = lit "7" ->
   menu_action isspace lower raw answers = DoSend (lit "KEYAUTO ME:1:1:OFF")) /\
  (choice = lit "8" ->
   menu_action isspace lower raw answers = DoSend (lit "XPT vid 1 1")) /\
  (choice = lit "9" ->
   menu_action isspace lower raw answers = DoSend (lit "SALVO 1")) /\
  (choice = lit "c" ->
   menu_action isspace lower raw answers = DoNothing).
Proof.
  intros H choice. subst choice.
  repeat split; intros E; unfold menu_action; rewrite E; cbv zeta;
    rewrite ?ask_blank, ?strip_blank by apply H; reflexivity.
Qed.

(** White space around an answer never reaches the command: a pass of the
    menu does the same with the answers as typed and with the answers
    stripped. *)
Theorem menu_ignores_surrounding_space (raw : str) (answers : nat -> str) :
  menu_action isspace lower raw answers
  = menu_action isspace lower raw (fun i => strip isspace (answers i)).
Proof.
  unfold menu_action. cbv zeta. now rewrite !ask_strip, strip_idem.
Qed.

End MenuFacts.

Lemma menu_blank_answers_witness :
  menu_action (fun c => c =? 32) (fun s => s) (lit " 4 ") (fun _ => lit "  ")
  = DoSend KEYCUT_ON.
Proof.
  pose proof (menu_blank_answers (fun c => c =? 32) (fun s => s) (lit " 4 ")
                (fun _ => lit "  ")) as W.
  cbv zeta in W.
  destruct W as (_ & _ & _ & H4 & _).
  - intros i. repeat constructor.
  - exact (H4 eq_refl).
Defined.
